(** * Ring inspection: a model of [find_and_analyze_ring]

    Shallow embedding of [src/defect_detector.py] (with the threshold of
    [src/config.py]).  Python and numpy floats are IEEE binary64 numbers and are
    modelled by Rocq's primitive floats; Python ints are [Z]; exceptions are an
    explicit result type; the returned dictionaries are finite maps from key
    strings to Python values.  The OpenCV entry points (thresholding, contour
    tracing, contour area, moments) are library code and are taken as
    parameters of the model. *)

From Stdlib Require Import ZArith Bool Lia Floats QArith Qabs Qround.
From stdpp Require Import gmap strings list sorting pretty.

Open Scope Z_scope.

(** ** Python results: a value or a raised exception *)

(** The exceptions that the Python and numpy operations of the function
    raise.  The errors of OpenCV itself ([cv2.error] on an image it cannot
    process) are outside the model: its entry points are total parameters. *)
Inductive exn : Type :=
  | ZeroDivisionError
  | ValueError
  | OverflowError
  | IndexError.

Inductive pyres (A : Type) : Type :=
  | Ret (a : A)
  | Raise (e : exn).
Arguments Ret {A} a.
Arguments Raise {A} e.

#[global] Instance pyres_ret : MRet pyres := fun A a => Ret a.
#[global] Instance pyres_bind : MBind pyres := fun A B k m =>
  match m with
  | Ret a => k a
  | Raise e => Raise e
  end.

(** ** Python values stored in the result dictionary *)

Inductive pyval : Type :=
  | VNone
  | VStr (s : string)
  | VTuple (p : Z * Z).

Abbreviation dict := (gmap string pyval).

(** The three dictionaries the function builds (lines 27 and 40, 65-68, 70). *)
Definition error_result (msg : string) : dict :=
  <["status" := VStr "Error"]> (<["defect_type" := VStr msg]> ∅).

Definition good_result : dict :=
  <["status" := VStr "Good"]>
    (<["defect_type" := VNone]> (<["location" := VNone]> ∅)).

Definition defective_result (defect_type : string) (location center : Z * Z) : dict :=
  <["status" := VStr "Defective"]>
    (<["defect_type" := VStr defect_type]>
       (<["location" := VTuple location]> (<["center" := VTuple center]> ∅))).

(** A key is populated when it is present with a value other than [None]. *)
Definition populated (d : dict) (k : string) : Prop :=
  exists v, d !! k = Some v /\ v <> VNone.

(** ** Floats *)

(** Conversion of an integer to the nearest binary64 number (ties to even):
    numpy's cast of an int64 array to float64. *)
Definition float_of_int (n : Z) : float :=
  SF2Prim (binary_normalize prec emax n 0 false).

(** [a / b] on Python floats. *)
Definition py_truediv (a b : float) : pyres float :=
  if (b =? 0)%float then Raise ZeroDivisionError else Ret (a / b)%float.

(** [n / 2] on a Python int: the correctly rounded quotient, [OverflowError]
    when it is too large for a float. *)
Definition py_truediv_int_2 (n : Z) : pyres float :=
  let q := SF2Prim (binary_normalize prec emax n (-1) false) in
  if is_infinity q then Raise OverflowError else Ret q.

(** [int(f)]: [ValueError] on a NaN, [OverflowError] on an infinity, otherwise
    the integer part of [f]. *)
Definition py_int (f : float) : pyres Z :=
  match Prim2SF f with
  | S754_nan => Raise ValueError
  | S754_infinity _ => Raise OverflowError
  | S754_zero _ => Ret 0
  | S754_finite s m e =>
      let a := Z.shiftl (Z.pos m) e in
      Ret (if s then - a else a)
  end.

(** ** Exact values, for the statements about rounding *)

(** The rational number a finite float stands for (0 for infinities and NaN). *)
Definition Qvalue (f : float) : Q :=
  match Prim2SF f with
  | S754_finite s m e =>
      let n := if s then Z.neg m else Z.pos m in
      if 0 <=? e then inject_Z (n * 2 ^ e) else n # (2 ^ Z.to_pos (- e))
  | _ => 0%Q
  end.

(** Truncation toward zero. *)
Definition Qtrunc (q : Q) : Z :=
  if Qle_bool 0 q then Qfloor q else Qceiling q.

(** [z] is an integer nearest to [q]. *)
Definition nearest_int (q : Q) (z : Z) : Prop :=
  (Qabs (q - inject_Z z) <= 1 # 2)%Q.

(** ** The numpy operations used by the scan *)

(** Arithmetic on numpy's default integer, int64, wraps around. *)
Definition wrap64 (n : Z) : Z := (n + 2 ^ 63) mod 2 ^ 64 - 2 ^ 63.

(** [np.roll(a, 1)]: the last element moves to the front. *)
Definition np_roll1 {A : Type} (a : list A) : list A :=
  match rev a with
  | [] => []
  | x :: r => x :: rev r
  end.

Definition sum_seq (acc : float) (a : list float) : float :=
  fold_left PrimFloat.add a acc.

Fixpoint add_blocks (blocks : nat) (r a : list float) : list float * list float :=
  match blocks with
  | O => (r, a)
  | S b => add_blocks b (zip_with PrimFloat.add r (take 8 a)) (drop 8 a)
  end.

(** The unrolled loop of numpy's summation for 8 to 128 elements: eight
    running sums, combined pairwise, then the remaining elements one by one. *)
Definition sum_unrolled (a : list float) : float :=
  let '(r, rest) := add_blocks (length a / 8 - 1) (take 8 a) (drop 8 a) in
  match r with
  | [r0; r1; r2; r3; r4; r5; r6; r7] =>
      sum_seq (((r0 + r1) + (r2 + r3)) + ((r4 + r5) + (r6 + r7)))%float rest
  | _ => sum_seq 0%float a
  end.

(** numpy's pairwise summation of a contiguous float64 array: a plain loop
    below 8 elements, the unrolled loop up to 128, two halves beyond.  [fuel]
    bounds the halvings; the length of the array is enough. *)
Fixpoint pairwise_sum (fuel : nat) (a : list float) : float :=
  let n := length a in
  if (n <? 8)%nat then sum_seq 0%float a
  else if (n <=? 128)%nat then sum_unrolled a
  else
    match fuel with
    | O => sum_seq 0%float a
    | S fuel' =>
        let n2 := (n / 2 - (n / 2) mod 8)%nat in
        (pairwise_sum fuel' (take n2 a) + pairwise_sum fuel' (drop n2 a))%float
    end.

(** [np.mean(a)]: the sum divided by the number of elements (NaN when empty). *)
Definition np_mean (a : list float) : float :=
  (pairwise_sum (length a) a / float_of_int (Z.of_nat (length a)))%float.

(** [np.maximum], which propagates NaNs, and [np.max]. *)
Definition np_maximum (a b : float) : float :=
  if (b <=? a)%float || is_nan a then a else b.

Definition np_max (a : list float) : pyres float :=
  match a with
  | [] => Raise ValueError
  | x :: a' => Ret (fold_left np_maximum a' x)
  end.

(** [np.argmax]: one pass keeping the first position of the running maximum;
    a NaN is maximal and stops the pass. *)
Fixpoint argmax_from (mp : float) (best i : nat) (a : list float) : nat :=
  match a with
  | [] => best
  | x :: a' =>
      if negb (x <=? mp)%float
      then (if is_nan x then i else argmax_from x i (S i) a')
      else argmax_from mp best (S i) a'
  end.

Definition np_argmax (a : list float) : pyres nat :=
  match a with
  | [] => Raise ValueError
  | x :: a' => Ret (if is_nan x then 0%nat else argmax_from x 0%nat 1%nat a')
  end.

(** Indexing with a non-negative index. *)
Definition py_index {A : Type} (a : list A) (i : nat) : pyres A :=
  match a !! i with
  | Some x => Ret x
  | None => Raise IndexError
  end.

(** [i] is the first position at which [a] takes its maximum: no element is
    larger, and every element before [i] is strictly smaller. *)
Definition first_max (a : list float) (i : nat) : Prop :=
  exists x, a !! i = Some x /\
    (forall j y, a !! j = Some y -> (y <=? x)%float = true) /\
    (forall j y, (j < i)%nat -> a !! j = Some y -> (y <? x)%float = true).

Definition no_nan (a : list float) : Prop :=
  Forall (fun x => is_nan x = false) a.

(** ** Contours and the radial profile *)

(** A contour is the array of its points, of shape (N, 1, 2) and type int32. *)
Definition Point : Type := Z * Z.
Definition Contour : Type := list Point.

(** The entries of [cv2.moments] the function reads. *)
Record Moments : Type := { m00 : float; m10 : float; m01 : float }.

(** [JUMP_THRESHOLD] of [src/config.py]. *)
Definition JUMP_THRESHOLD : float := 2.5%float.

(** [np.sqrt(((contour - (center_x, center_y))**2).sum(axis=2)).flatten()]:
    the subtraction, the squares and the sum are int64 arithmetic, the square
    root is taken after the cast to float64.  The center is taken to fit
    int64, as every center computed from the moments of an image does; numpy
    refuses a larger one instead of wrapping it. *)
Definition radii (contour : Contour) (center : Z * Z) : list float :=
  map (fun p : Point =>
         let dx := wrap64 (p.1 - center.1) in
         let dy := wrap64 (p.2 - center.2) in
         PrimFloat.sqrt (float_of_int (wrap64 (wrap64 (dx * dx) + wrap64 (dy * dy)))))
      contour.

Definition avg_radius (contour : Contour) (center : Z * Z) : float :=
  np_mean (radii contour center).

(** [np.abs(radii - np.roll(radii, 1))] *)
Definition diffs_of (r : list float) : list float :=
  zip_with (fun x y => abs (x - y)%float) r (np_roll1 r).

Definition diffs (contour : Contour) (center : Z * Z) : list float :=
  diffs_of (radii contour center).

(** [np.abs(radii - avg_radius)] *)
Definition deviations (contour : Contour) (center : Z * Z) : list float :=
  map (fun x => abs (x - avg_radius contour center)%float) (radii contour center).

Definition max_jump (contour : Contour) (center : Z * Z) : pyres float :=
  np_max (diffs contour center).

(** [radii[np.argmax(np.abs(radii - avg_radius))]] *)
Definition dev_radius (contour : Contour) (center : Z * Z) : pyres float :=
  i ← np_argmax (deviations contour center);
  py_index (radii contour center) i.

(** The classification of lines 59-63. *)
Definition classify (name : string) (dev avg : float) : string :=
  if String.eqb name "Outer" then (if (dev <? avg)%float then "Cut" else "Flash")
  else if String.eqb name "Inner" then (if (dev <? avg)%float then "Flash" else "Cut")
  else "Unknown".

(** The body of the loop over the two boundaries: [Some] result when the
    function returns from inside the loop, [None] when the loop goes on. *)
Definition analyze_boundary (center : Z * Z) (contour : Contour) (name : string)
  : pyres (option dict) :=
  mj ← max_jump contour center;
  if (JUMP_THRESHOLD <? mj)%float then
    defect_idx ← np_argmax (diffs contour center);
    defect_point ← py_index contour defect_idx;
    dev ← dev_radius contour center;
    let defect_type := classify name dev (avg_radius contour center) in
    Ret (Some (defective_result defect_type defect_point center))
  else Ret None.

(** The loop of lines 46-68 and the return of line 70. *)
Fixpoint scan_boundaries (center : Z * Z) (bs : list (Contour * string)) : pyres dict :=
  match bs with
  | [] => Ret good_result
  | (contour, name) :: rest =>
      r ← analyze_boundary center contour name;
      match r with
      | Some d => Ret d
      | None => scan_boundaries center rest
      end
  end.

(** The test of line 53 on one boundary: its largest jump is computed and is
    above, respectively not above, the threshold. *)
Definition exceeds (contour : Contour) (center : Z * Z) : Prop :=
  exists mj, max_jump contour center = Ret mj /\ (JUMP_THRESHOLD <? mj)%float = true.

Definition within (contour : Contour) (center : Z * Z) : Prop :=
  exists mj, max_jump contour center = Ret mj /\ (JUMP_THRESHOLD <? mj)%float = false.

(** ** [sorted(contours, key=..., reverse=True)]

    Python's sort is stable, also with [reverse=True]: among equal keys the
    earlier element stays first.  The insertion below produces that order
    whenever the keys are totally ordered by [<] (no NaN among them). *)
Section Sorted.
Context {A : Type} (key : A -> float).

Fixpoint insert_desc (x : A) (l : list A) : list A :=
  match l with
  | [] => [x]
  | y :: l' =>
      if (key x <? key y)%float then y :: insert_desc x l' else x :: y :: l'
  end.

Fixpoint sorted_desc (l : list A) : list A :=
  match l with
  | [] => []
  | x :: l' => insert_desc x (sorted_desc l')
  end.

(** Positions are attached to the elements to tell equal keys apart. *)
Fixpoint index_from (n : nat) (l : list A) : list (nat * A) :=
  match l with
  | [] => []
  | x :: l' => (n, x) :: index_from (S n) l'
  end.

Definition ikey (e : nat * A) : float := key e.2.

(** [e1] is ranked before [e2]: its key is not smaller, and it is strictly
    larger when [e2] comes from an earlier position. *)
Definition ranked_before (e1 e2 : nat * A) : Prop :=
  (ikey e2 <=? ikey e1)%float = true /\
  ((e2.1 < e1.1)%nat -> (ikey e2 <? ikey e1)%float = true).
End Sorted.

(** ** The registration center in the words of the specification

    The midpoint of the two centroids [(m10/m00, m01/m00)], each coordinate
    rounded to the nearest integer. *)
Definition rounded_midpoint (m_outer m_inner : Moments) (center : Z * Z) : Prop :=
  let mid (a b : Q) : Q := ((a + b) / 2)%Q in
  nearest_int (mid (Qvalue (m10 m_outer) / Qvalue (m00 m_outer))%Q
                   (Qvalue (m10 m_inner) / Qvalue (m00 m_inner))%Q) center.1 /\
  nearest_int (mid (Qvalue (m01 m_outer) / Qvalue (m00 m_outer))%Q
                   (Qvalue (m01 m_inner) / Qvalue (m00 m_inner))%Q) center.2.

(** Lines 42-43. *)
Definition center_of (c_outer c_inner : Z * Z) : pyres (Z * Z) :=
  qx ← py_truediv_int_2 (c_outer.1 + c_inner.1);
  center_x ← py_int qx;
  qy ← py_truediv_int_2 (c_outer.2 + c_inner.2);
  center_y ← py_int qy;
  Ret (center_x, center_y).

(** ** The inspection *)
Section Inspect.
(** The OpenCV calls: [cv2.threshold] with inverted Otsu thresholding,
    [cv2.findContours] with [RETR_TREE] and [CHAIN_APPROX_SIMPLE],
    [cv2.contourArea] and [cv2.moments]. *)
Context {Image : Type}.
Variable cv2_threshold : Image -> Image.
Variable cv2_findContours : Image -> list Contour.
Variable cv2_contourArea : Contour -> float.
Variable cv2_moments : Contour -> Moments.

(** Lines 33-35 (and 36-38): the centroid of one contour, as integers. *)
Definition centroid (c : Contour) : pyres (Z * Z) :=
  let m := cv2_moments c in
  qx ← py_truediv (m10 m) (m00 m);
  cx ← py_int qx;
  qy ← py_truediv (m01 m) (m00 m);
  cy ← py_int qy;
  Ret (cx, cy).

(** Line 29. *)
Definition select (contours : list Contour) : list Contour :=
  take 2 (sorted_desc cv2_contourArea contours).

Definition find_and_analyze_ring (processed_image : Image) : pyres dict :=
  let binary_image := cv2_threshold processed_image in
  let contours := cv2_findContours binary_image in
  if (length contours <? 2)%nat then Ret (error_result "Segmentation Failed")
  else
    match select contours with
    | [outer_contour; inner_contour] =>
        match (c_outer ← centroid outer_contour;
               c_inner ← centroid inner_contour;
               Ret (c_outer, c_inner)) with
        | Raise ZeroDivisionError => Ret (error_result "Could not calculate moments")
        | Raise e => Raise e
        | Ret (c_outer, c_inner) =>
            center ← center_of c_outer c_inner;
            scan_boundaries center
              [(outer_contour, "Outer"%string); (inner_contour, "Inner"%string)]
        end
    | _ => Raise ValueError
    end.

(** The run on [processed_image] reaches the scan: at least two contours are
    traced, [outer] and [inner] are the selected ones, both centroids are
    computed and [center] is the registration center. *)
Definition registered (processed_image : Image)
    (outer inner : Contour) (center : Z * Z) : Prop :=
  let contours := cv2_findContours (cv2_threshold processed_image) in
  (2 <= length contours)%nat /\
  select contours = [outer; inner] /\
  exists c_outer c_inner,
    centroid outer = Ret c_outer /\
    centroid inner = Ret c_inner /\
    center_of c_outer c_inner = Ret center.

(** [c], at position [i], is the first contour, in the order of the tracer,
    of largest area among the contours at positions other than [skip]. *)
Definition largest_except (contours : list Contour) (skip : option nat)
    (i : nat) (c : Contour) : Prop :=
  contours !! i = Some c /\ skip <> Some i /\
  forall k c', contours !! k = Some c' -> skip <> Some k ->
    (cv2_contourArea c' <=? cv2_contourArea c)%float = true /\
    ((k < i)%nat -> (cv2_contourArea c' <? cv2_contourArea c)%float = true).

(** The integer parts of the centroid [(m10/m00, m01/m00)] of a contour. *)
Definition truncated_centroid (c : Contour) : Z * Z :=
  let m := cv2_moments c in
  (Qtrunc (Qvalue (m10 m / m00 m)%float), Qtrunc (Qvalue (m01 m / m00 m)%float)).

(** The statement of the specification about the center of a Defective
    result, for the run on one image. *)
Definition center_is_rounded_midpoint (processed_image : Image) : Prop :=
  forall d,
    find_and_analyze_ring processed_image = Ret d ->
    d !! "status" = Some (VStr "Defective") ->
    exists outer inner center,
      select (cv2_findContours (cv2_threshold processed_image)) = [outer; inner] /\
      d !! "center" = Some (VTuple center) /\
      rounded_midpoint (cv2_moments outer) (cv2_moments inner) center.
End Inspect.

(** ** A reference instance of the OpenCV parameters

    Images are given by the contours the tracer finds in them; area and
    moments of a polygon follow OpenCV's Green-formula loops over the vertices. *)
Module Polygon.

Definition fz (n : Z) : float := float_of_int n.

Definition closed_pairs (c : Contour) : list (Point * Point) :=
  zip (np_roll1 c) c.

(** [cv::contourArea(contour, false)] *)
Definition contourArea (c : Contour) : float :=
  let a00 := fold_left
               (fun acc '(prev, p) =>
                  (acc + (fz prev.1 * fz p.2 - fz prev.2 * fz p.1))%float)
               (closed_pairs c) 0%float in
  abs (a00 * 0.5)%float.

Definition FLT_EPSILON : float := 0x1p-23%float.

(** [cv::moments] of a contour, fields [m00], [m10], [m01]. *)
Definition moments (c : Contour) : Moments :=
  let '(a00, a10, a01) :=
    fold_left
      (fun '(a00, a10, a01) '(prev, p) =>
         let dxy := (fz prev.1 * fz p.2 - fz p.1 * fz prev.2)%float in
         ((a00 + dxy)%float,
          (a10 + dxy * (fz prev.1 + fz p.1))%float,
          (a01 + dxy * (fz prev.2 + fz p.2))%float))
      (closed_pairs c) (0%float, 0%float, 0%float) in
  if (FLT_EPSILON <? abs a00)%float then
    let db1_2 := if (0 <? a00)%float then 0.5%float else (-0.5)%float in
    let db1_6 := if (0 <? a00)%float
                 then 0x1.5555555555555p-3%float
                 else (-0x1.5555555555555p-3)%float in
    {| m00 := (a00 * db1_2)%float; m10 := (a10 * db1_6)%float; m01 := (a01 * db1_6)%float |}
  else {| m00 := 0%float; m10 := 0%float; m01 := 0%float |}.

(** The inspection of an image whose traced contours are [contours]. *)
Definition inspect (contours : list Contour) : pyres dict :=
  find_and_analyze_ring (fun img => img) (fun img => img) contourArea moments contours.

Definition reaches_scan (contours : list Contour)
    (outer inner : Contour) (center : Z * Z) : Prop :=
  registered (fun img => img) (fun img => img) contourArea moments
    contours outer inner center.

End Polygon.

(** ** Sample contours *)

Definition tri_outer : Contour := [(0, 0); (20, 0); (0, 20)].
Definition tri_inner : Contour := [(4, 4); (12, 4); (4, 12)].
Definition tri_mid : Contour := [(6, 6); (18, 6); (6, 18)].
Definition sq_outer : Contour := [(0, 0); (20, 0); (20, 20); (0, 20)].
Definition sq_shift : Contour := [(1, 1); (21, 1); (21, 21); (1, 21)].
Definition sq_inner : Contour := [(5, 5); (15, 5); (15, 15); (5, 15)].
Definition sq_small : Contour := [(18, 18); (22, 18); (22, 22); (18, 22)].
Definition kite : Contour := [(25, 20); (20, 27); (11, 20); (20, 15)].
Definition segment : Contour := [(1, 1); (5, 1)].
Definition sq_around : Contour := [(10, 10); (30, 10); (30, 30); (10, 30)].

(** ** The rendering of a result and the batch: [src/visualizer.py],
    [src/data_loader.py] and [main.py]

    The drawing and image calls of OpenCV are parameters; the matplotlib
    figure that is saved is recorded by what it shows (image, title, title
    colour) and where it is written.  Calls to [logging] and [os.makedirs]
    are left out: they decide nothing in these functions. *)

(** The exceptions of the rendering. *)
Inductive vis_exn : Type :=
  | KeyError (key : string)
  | TypeError.

Inductive vres (A : Type) : Type :=
  | VRet (a : A)
  | VRaise (e : vis_exn).
Arguments VRet {A} a.
Arguments VRaise {A} e.

#[global] Instance vres_ret : MRet vres := fun A a => VRet a.
#[global] Instance vres_bind : MBind vres := fun A B k m =>
  match m with
  | VRet a => k a
  | VRaise e => VRaise e
  end.

(** [d[k]] *)
Definition dict_get (d : dict) (k : string) : vres pyval :=
  match d !! k with
  | Some v => VRet v
  | None => VRaise (KeyError k)
  end.

(** ["{}".format(v)] *)
Definition py_format (v : pyval) : string :=
  match v with
  | VNone => "None"
  | VStr s => s
  | VTuple (x, y) => "(" +:+ pretty x +:+ ", " +:+ pretty y +:+ ")"
  end.

(** [v == s] for a string literal [s]. *)
Definition py_eq_str (v : pyval) (s : string) : bool :=
  match v with
  | VStr t => String.eqb t s
  | _ => false
  end.

(** A point argument of an OpenCV drawing call has to be a tuple. *)
Definition as_point (v : pyval) : vres (Z * Z) :=
  match v with
  | VTuple p => VRet p
  | _ => VRaise TypeError
  end.

Definition newline : string := String (Ascii.ascii_of_nat 10) EmptyString.

(** [os.path.join(a, b)] (POSIX). *)
Definition os_path_join (a b : string) : string :=
  if String.prefix "/" b then b
  else if String.eqb a "" || String.eqb (String.substring (String.length a - 1) 1 a) "/"
       then a +:+ b
       else a +:+ "/" +:+ b.

Inductive color_code : Type := COLOR_BGR2GRAY | COLOR_BGR2RGB.

(** [GAUSSIAN_BLUR_KERNEL] of [src/config.py]. *)
Definition GAUSSIAN_BLUR_KERNEL : Z * Z := (5, 5).

(** The figure written by [plt.savefig]. *)
Record Figure (Image : Type) : Type := {
  fig_image : Image;
  fig_title : string;
  fig_color : string;
  fig_path : string
}.
Arguments fig_image {Image} _.
Arguments fig_title {Image} _.
Arguments fig_color {Image} _.
Arguments fig_path {Image} _.

(** How a batch ends before its last file. *)
Inductive crash : Type :=
  | DetectorRaised (e : exn)
  | VisualizerRaised (e : vis_exn).

Definition data_dir : string := "data".
Definition output_dir : string := "output".
Definition image_files : list string :=
  ["defect1.png"; "defect2.png"; "defect3.png"; "defect4.png"; "good.png"].

Section Pipeline.
Context {Image : Type}.
Variable cv2_threshold : Image -> Image.
Variable cv2_findContours : Image -> list Contour.
Variable cv2_contourArea : Contour -> float.
Variable cv2_moments : Contour -> Moments.
(** [cv2.imread] gives [None] for a file it cannot read. *)
Variable cv2_imread : string -> option Image.
Variable cv2_cvtColor : Image -> color_code -> Image.
Variable cv2_GaussianBlur : Image -> Z * Z -> Z -> Image.
(** [cv2.circle(img, center, radius, color, thickness)] and
    [cv2.line(img, pt1, pt2, color, thickness)]. *)
Variable cv2_circle : Image -> Z * Z -> Z -> Z * Z * Z -> Z -> Image.
Variable cv2_line : Image -> Z * Z -> Z * Z -> Z * Z * Z -> Z -> Image.

(** [preprocess_image]: [None] stands for the pair [(None, None)]. *)
Definition preprocess_image (image_path : string) : option (Image * Image) :=
  match cv2_imread image_path with
  | None => None
  | Some original_image =>
      let gray_image := cv2_cvtColor original_image COLOR_BGR2GRAY in
      let blurred_image := cv2_GaussianBlur gray_image GAUSSIAN_BLUR_KERNEL 0 in
      Some (original_image, blurred_image)
  end.

Definition visualize_results (image : Image) (result : dict)
    (name output_dir : string) : vres (Figure Image) :=
  status ← dict_get result "status";
  defect_type ← dict_get result "defect_type";
  location ← dict_get result "location";
  let title := "File: " +:+ name +:+ newline +:+ "Status: " +:+ py_format status in
  let color := if py_eq_str status "Good" then "green" else "red" in
  drawn ← (if py_eq_str status "Defective" then
             let title := title +:+ " - Type: " +:+ py_format defect_type in
             p ← as_point location;
             let image := cv2_circle image p 20 (0, 0, 255) 3 in
             center ← dict_get result "center";
             c ← as_point center;
             let image := cv2_line image c p (255, 0, 0) 2 in
             VRet (image, title)
           else VRet (image, title));
  let '(image, title) := drawn in
  let output_filename := "result_" +:+ name in
  let output_path := os_path_join output_dir output_filename in
  VRet {| fig_image := cv2_cvtColor image COLOR_BGR2RGB;
          fig_title := title;
          fig_color := color;
          fig_path := output_path |}.

(** The loop of [run_inspection_pipeline] over the file names: the figures
    saved, in order, and the exception that ended the loop, if any. *)
Fixpoint inspect_files (files : list string) : list (Figure Image) * option crash :=
  match files with
  | [] => ([], None)
  | file_name :: rest =>
      let image_path := os_path_join data_dir file_name in
      match preprocess_image image_path with
      | None => inspect_files rest
      | Some (original_img, processed_img) =>
          match find_and_analyze_ring cv2_threshold cv2_findContours
                  cv2_contourArea cv2_moments processed_img with
          | Raise e => ([], Some (DetectorRaised e))
          | Ret result =>
              match visualize_results original_img result file_name output_dir with
              | VRaise e => ([], Some (VisualizerRaised e))
              | VRet fig =>
                  let '(figs, c) := inspect_files rest in (fig :: figs, c)
              end
          end
      end
  end.

Definition run_inspection_pipeline : list (Figure Image) * option crash :=
  inspect_files image_files.

(** The file is read and the detector returns [result] for it. *)
Definition inspected (file_name : string) (result : dict) : Prop :=
  exists original_img processed_img,
    preprocess_image (os_path_join data_dir file_name)
    = Some (original_img, processed_img) /\
    find_and_analyze_ring cv2_threshold cv2_findContours
      cv2_contourArea cv2_moments processed_img = Ret result.

Definition readable (file_name : string) : bool :=
  bool_decide (is_Some (cv2_imread (os_path_join data_dir file_name))).
End Pipeline.

(** A disk with three images, given by the contours traced in them; the
    drawing calls add the marker to the contours. *)
Module Disk.
Definition imread (path : string) : option (list Contour) :=
  if String.eqb path "data/defect1.png" then Some [tri_inner; tri_outer]
  else if String.eqb path "data/defect2.png" then Some [sq_inner]
  else if String.eqb path "data/good.png" then Some [sq_inner; sq_outer]
  else None.

Definition cvtColor (img : list Contour) (code : color_code) : list Contour := img.
Definition GaussianBlur (img : list Contour) (ksize : Z * Z) (sigma : Z) : list Contour := img.
Definition circle (img : list Contour) (c : Z * Z) (r : Z) (color : Z * Z * Z) (t : Z)
  : list Contour := img ++ [[c]].
Definition line (img : list Contour) (p q : Z * Z) (color : Z * Z * Z) (t : Z)
  : list Contour := img ++ [[p; q]].

Definition visualize :=
  visualize_results cvtColor circle line.
Definition batch (files : list string) :=
  inspect_files (fun img => img) (fun img => img) Polygon.contourArea Polygon.moments
    imread cvtColor GaussianBlur circle line files.
End Disk.


(** The point [p] moved by [t]. *)
Definition shift (t p : Z * Z) : Z * Z := (p.1 + t.1, p.2 + t.2).

(** ** The largest jump in the words of the specification

    The position before [i] on a closed profile of [n] points: the last
    position for the first one. *)
Definition circular_pred (n i : nat) : nat :=
  match i with
  | O => (n - 1)%nat
  | S j => j
  end.

(** [mj] is the maximum of the circular first differences of the radii [r]:
    it is the jump [|r[i] - r[i-1]|] at some position [i], the first radius
    being compared with the last one, and, when no jump is a NaN, no jump is
    larger. *)
Definition largest_circular_jump (r : list float) (mj : float) : Prop :=
  (exists i a b,
     r !! i = Some a /\ r !! circular_pred (length r) i = Some b /\
     mj = abs (a - b)%float) /\
  ((forall i a b,
      r !! i = Some a -> r !! circular_pred (length r) i = Some b ->
      is_nan (abs (a - b)%float) = false) ->
   forall i a b,
     r !! i = Some a -> r !! circular_pred (length r) i = Some b ->
     (abs (a - b) <=? mj)%float = true).

(** ** Order facts on binary64 numbers *)
Module FloatOrder.

Lemma SFcompare_antisym x y :
  SFcompare y x = option_map CompOpp (SFcompare x y).
Proof.
  destruct x as [sx|sx| |sx mx ex], y as [sy|sy| |sy my ey]; simpl; try reflexivity;
    try (destruct sx; reflexivity); try (destruct sy; reflexivity);
    try (destruct sx, sy; reflexivity).
  f_equal.
  rewrite (Z.compare_antisym ey ex).
  change (Pos.compare_cont Eq my mx) with (Pos.compare my mx).
  change (Pos.compare_cont Eq mx my) with (Pos.compare mx my).
  rewrite (Pos.compare_antisym my mx).
  destruct sx, sy; simpl; try reflexivity;
    destruct (ey ?= ex); simpl; try reflexivity;
    destruct (my ?= mx)%positive; reflexivity.
Qed.

Lemma SFcompare_refl x : x <> S754_nan -> SFcompare x x = Some Eq.
Proof.
  destruct x as [s|s| |s m e]; simpl; intros H; try congruence.
  - destruct s; reflexivity.
  - rewrite Z.compare_refl.
    change (Pos.compare_cont Eq m m) with (Pos.compare m m).
    rewrite Pos.compare_refl. destruct s; reflexivity.
Qed.

Lemma SFcompare_nan x y :
  x <> S754_nan -> y <> S754_nan -> SFcompare x y <> None.
Proof.
  destruct x, y; simpl; congruence.
Qed.

Lemma SFleb_trans x y z :
  SFleb x y = true -> SFleb y z = true -> SFleb x z = true.
Proof.
  unfold SFleb.
  destruct x as [sx|sx| |sx mx ex], y as [sy|sy| |sy my ey], z as [sz|sz| |sz mz ez];
    simpl; try discriminate; try reflexivity;
    try (destruct sx; simpl; try discriminate; try reflexivity);
    try (destruct sy; simpl; try discriminate; try reflexivity);
    try (destruct sz; simpl; try discriminate; try reflexivity).
  all: change (Pos.compare_cont Eq mx my) with (Pos.compare mx my);
    change (Pos.compare_cont Eq my mz) with (Pos.compare my mz);
    change (Pos.compare_cont Eq mx mz) with (Pos.compare mx mz).
  all: destruct (Z.compare_spec ex ey), (Z.compare_spec ey ez), (Z.compare_spec ex ez);
    try discriminate; try reflexivity; try lia; subst.
  all: destruct (Pos.compare_spec mx my), (Pos.compare_spec my mz), (Pos.compare_spec mx mz);
    simpl; try discriminate; try reflexivity; try lia.
Qed.

Lemma is_nan_spec x : is_nan x = true <-> Prim2SF x = S754_nan.
Proof.
  unfold is_nan. rewrite FloatAxioms.eqb_spec. unfold SFeqb. split.
  - intros H. destruct (Prim2SF x) eqn:E; try reflexivity;
      rewrite SFcompare_refl in H by congruence; discriminate.
  - intros ->. reflexivity.
Qed.

Lemma not_nan_spec x : is_nan x = false <-> Prim2SF x <> S754_nan.
Proof.
  pose proof (is_nan_spec x) as [H1 H2].
  destruct (is_nan x); split; intros H; try congruence.
  - specialize (H1 eq_refl). congruence.
  - intros E. specialize (H2 E). discriminate.
Qed.

Lemma leb_refl x : is_nan x = false -> (x <=? x)%float = true.
Proof.
  intros H%not_nan_spec. rewrite FloatAxioms.leb_spec. unfold SFleb.
  now rewrite SFcompare_refl.
Qed.

Lemma leb_trans x y z :
  (x <=? y)%float = true -> (y <=? z)%float = true -> (x <=? z)%float = true.
Proof. rewrite !FloatAxioms.leb_spec. apply SFleb_trans. Qed.

Lemma ltb_negb_leb x y :
  is_nan x = false -> is_nan y = false -> (x <? y)%float = negb (y <=? x)%float.
Proof.
  intros Hx%not_nan_spec Hy%not_nan_spec. rewrite FloatAxioms.ltb_spec, FloatAxioms.leb_spec.
  unfold SFltb, SFleb. rewrite (SFcompare_antisym (Prim2SF x) (Prim2SF y)).
  pose proof (SFcompare_nan _ _ Hx Hy) as Hc.
  destruct (SFcompare (Prim2SF x) (Prim2SF y)) as [[]|]; simpl; congruence.
Qed.

Lemma leb_ltb_false x y : (x <=? y)%float = true -> (y <? x)%float = false.
Proof.
  rewrite FloatAxioms.ltb_spec, FloatAxioms.leb_spec. unfold SFltb, SFleb.
  rewrite (SFcompare_antisym (Prim2SF x) (Prim2SF y)).
  destruct (SFcompare (Prim2SF x) (Prim2SF y)) as [[]|]; simpl; congruence.
Qed.

Lemma ltb_leb x y : (x <? y)%float = true -> (x <=? y)%float = true.
Proof.
  rewrite FloatAxioms.ltb_spec, FloatAxioms.leb_spec. unfold SFltb, SFleb.
  destruct (SFcompare (Prim2SF x) (Prim2SF y)) as [[]|]; simpl; congruence.
Qed.

Lemma ltb_not_nan x y :
  (x <? y)%float = true -> is_nan x = false /\ is_nan y = false.
Proof.
  rewrite FloatAxioms.ltb_spec, !not_nan_spec. unfold SFltb.
  destruct (Prim2SF x), (Prim2SF y); simpl; try discriminate; split; congruence.
Qed.

Lemma leb_not_nan x y :
  (x <=? y)%float = true -> is_nan x = false /\ is_nan y = false.
Proof.
  rewrite FloatAxioms.leb_spec, !not_nan_spec. unfold SFleb.
  destruct (Prim2SF x), (Prim2SF y); simpl; try discriminate; split; congruence.
Qed.

Lemma leb_total x y :
  is_nan x = false -> is_nan y = false ->
  (x <=? y)%float = true \/ (y <? x)%float = true.
Proof.
  intros Hx Hy. rewrite (ltb_negb_leb y x) by assumption.
  destruct (x <=? y)%float; auto.
Qed.

Lemma leb_ltb_trans x y z :
  (x <=? y)%float = true -> (y <? z)%float = true -> (x <? z)%float = true.
Proof.
  intros Hxy Hyz.
  destruct (leb_not_nan _ _ Hxy) as [Hx _], (ltb_not_nan _ _ Hyz) as [Hy Hz].
  rewrite ltb_negb_leb by assumption.
  destruct (z <=? x)%float eqn:E; [|reflexivity].
  pose proof (leb_trans _ _ _ E Hxy) as H.
  apply leb_ltb_false in H. congruence.
Qed.

Lemma ltb_leb_trans x y z :
  (x <? y)%float = true -> (y <=? z)%float = true -> (x <? z)%float = true.
Proof.
  intros Hxy Hyz.
  destruct (ltb_not_nan _ _ Hxy) as [Hx Hy], (leb_not_nan _ _ Hyz) as [_ Hz].
  rewrite ltb_negb_leb by assumption.
  destruct (z <=? x)%float eqn:E; [|reflexivity].
  pose proof (leb_trans _ _ _ Hyz E) as H.
  apply leb_ltb_false in H. congruence.
Qed.

Lemma ltb_irrefl x : (x <? x)%float = false.
Proof.
  destruct (x <? x)%float eqn:E; [|reflexivity].
  pose proof (leb_ltb_false _ _ (ltb_leb _ _ E)). congruence.
Qed.

End FloatOrder.

(** ** Facts on the numpy operations *)
Module NumpyFacts.
Import FloatOrder.

Lemma length_np_roll1 {A} (a : list A) : length (np_roll1 a) = length a.
Proof.
  unfold np_roll1. rewrite <- (length_rev a).
  destruct (rev a) as [|x r]; simpl; [reflexivity|].
  now rewrite length_rev.
Qed.

Lemma length_diffs_of r : length (diffs_of r) = length r.
Proof.
  unfold diffs_of. rewrite length_zip_with, length_np_roll1. lia.
Qed.

Lemma length_radii c center : length (radii c center) = length c.
Proof. unfold radii. apply length_map. Qed.

Lemma length_diffs c center : length (diffs c center) = length c.
Proof. unfold diffs. now rewrite length_diffs_of, length_radii. Qed.

Lemma length_deviations c center : length (deviations c center) = length c.
Proof. unfold deviations. now rewrite length_map, length_radii. Qed.

Lemma argmax_from_lt a : forall mp best i,
  (best < i)%nat -> (argmax_from mp best i a < i + length a)%nat.
Proof.
  induction a as [|x a IH]; intros mp best i Hb; simpl; [lia|].
  destruct (negb (x <=? mp)%float).
  - destruct (is_nan x); [lia|].
    specialize (IH x i (S i) ltac:(lia)). lia.
  - specialize (IH mp best (S i) ltac:(lia)). lia.
Qed.

Lemma np_argmax_lt a i : np_argmax a = Ret i -> (i < length a)%nat.
Proof.
  destruct a as [|x a]; simpl; [discriminate|].
  intros [= <-]. destruct (is_nan x); [lia|].
  pose proof (argmax_from_lt a x 0%nat 1%nat ltac:(lia)). lia.
Qed.

Lemma np_argmax_total a : a <> [] -> exists i, np_argmax a = Ret i.
Proof. destruct a; [congruence|]. intros _. eexists. reflexivity. Qed.

Lemma np_max_nonempty a m : np_max a = Ret m -> a <> [].
Proof. destruct a; [discriminate|congruence]. Qed.

Lemma argmax_from_first_max a : forall pre mp best,
  no_nan (pre ++ a) ->
  pre !! best = Some mp ->
  (forall j y, pre !! j = Some y -> (y <=? mp)%float = true) ->
  (forall j y, (j < best)%nat -> pre !! j = Some y -> (y <? mp)%float = true) ->
  first_max (pre ++ a) (argmax_from mp best (length pre) a).
Proof.
  induction a as [|x a IH]; intros pre mp best Hnan Hbest Hle Hlt; simpl.
  - rewrite app_nil_r. exists mp. auto.
  - assert (Hx : is_nan x = false).
    { unfold no_nan in Hnan. rewrite Forall_app, Forall_cons in Hnan. tauto. }
    assert (Hmp : is_nan mp = false).
    { unfold no_nan in Hnan. rewrite Forall_app in Hnan.
      destruct Hnan as [Hp _]. rewrite Forall_lookup in Hp. eauto. }
    assert (Hlen : length (pre ++ [x]) = S (length pre)).
    { rewrite length_app. simpl. lia. }
    assert (Hbl : (best < length pre)%nat) by (eapply lookup_lt_Some; eauto).
    rewrite (cons_middle x pre a), app_assoc in Hnan |- *.
    rewrite Hx. destruct (x <=? mp)%float eqn:E; simpl.
    + rewrite <- Hlen. apply IH; trivial.
      * rewrite lookup_app_l by lia. assumption.
      * intros j y Hj. apply lookup_app_Some in Hj as [Hj|[_ Hj]]; [eauto|].
        apply list_lookup_singleton_Some in Hj as [_ <-]. assumption.
      * intros j y Hjb Hj. rewrite lookup_app_l in Hj by lia. eauto.
    + assert (Hgt : (mp <? x)%float = true).
      { rewrite ltb_negb_leb by assumption. now rewrite E. }
      rewrite <- Hlen. apply IH; trivial.
      * rewrite lookup_app_r by lia. now rewrite Nat.sub_diag.
      * intros j y Hj. apply lookup_app_Some in Hj as [Hj|[_ Hj]].
        -- apply ltb_leb. eapply leb_ltb_trans; eauto.
        -- apply list_lookup_singleton_Some in Hj as [_ <-]. now apply leb_refl.
      * intros j y Hjb Hj. rewrite lookup_app_l in Hj by lia.
        eapply leb_ltb_trans; eauto.
Qed.

Lemma np_argmax_first_max a i :
  no_nan a -> np_argmax a = Ret i -> first_max a i.
Proof.
  destruct a as [|x a]; simpl; [discriminate|].
  intros Hnan [= <-].
  assert (Hx : is_nan x = false) by (inversion Hnan; assumption).
  rewrite Hx.
  apply (argmax_from_first_max a [x] x 0%nat); trivial.
  - intros [|j] y; simpl; [|discriminate]. intros [= <-]. now apply leb_refl.
  - intros j y Hj. lia.
Qed.

(** The first position of a maximum is unique. *)
Lemma first_max_unique a i j : first_max a i -> first_max a j -> i = j.
Proof.
  intros (x & Hx & Hxle & Hxlt) (y & Hy & Hyle & Hylt).
  destruct (Nat.lt_trichotomy i j) as [H|[H|H]]; trivial.
  - pose proof (Hylt _ _ H Hx) as H1. pose proof (Hxle _ _ Hy) as H2.
    apply leb_ltb_false in H2. congruence.
  - pose proof (Hxlt _ _ H Hy) as H1. pose proof (Hyle _ _ Hx) as H2.
    apply leb_ltb_false in H2. congruence.
Qed.
End NumpyFacts.

(** ** Facts on the scan of the boundaries *)
Module ScanFacts.
Import NumpyFacts.

Lemma bind_ret {A B} (m : pyres A) (k : A -> pyres B) a :
  m = Ret a -> (m ≫= k) = k a.
Proof. intros ->. reflexivity. Qed.

Lemma bind_inv {A B} (m : pyres A) (k : A -> pyres B) b :
  (m ≫= k) = Ret b -> exists a, m = Ret a /\ k a = Ret b.
Proof. destruct m as [a|e]; simpl; [eauto|discriminate]. Qed.

Lemma py_index_ret {A} (a : list A) i x : a !! i = Some x -> py_index a i = Ret x.
Proof. unfold py_index. now intros ->. Qed.

Lemma py_index_inv {A} (a : list A) i x : py_index a i = Ret x -> a !! i = Some x.
Proof. unfold py_index. destruct (a !! i); congruence. Qed.

(** A boundary with a jump above the threshold makes the loop return. *)
Lemma analyze_boundary_exceeds center c name :
  exceeds c center ->
  exists i p k r,
    np_argmax (diffs c center) = Ret i /\ c !! i = Some p /\
    np_argmax (deviations c center) = Ret k /\ radii c center !! k = Some r /\
    dev_radius c center = Ret r /\
    analyze_boundary center c name =
      Ret (Some (defective_result (classify name r (avg_radius c center)) p center)).
Proof.
  intros (mj & Hmj & Hgt).
  assert (Hne : diffs c center <> []) by (eapply np_max_nonempty; eauto).
  destruct (np_argmax_total _ Hne) as [i Hi].
  pose proof (np_argmax_lt _ _ Hi) as Hlt. rewrite length_diffs in Hlt.
  destruct (lookup_lt_is_Some_2 c i Hlt) as [p Hp].
  assert (Hne' : deviations c center <> []).
  { intros E. apply (f_equal length) in E. rewrite length_deviations in E.
    simpl in E. lia. }
  destruct (np_argmax_total _ Hne') as [k Hk].
  pose proof (np_argmax_lt _ _ Hk) as Hlt'.
  rewrite length_deviations, <- (length_radii c center) in Hlt'.
  destruct (lookup_lt_is_Some_2 _ k Hlt') as [r Hr].
  assert (Hdev : dev_radius c center = Ret r).
  { unfold dev_radius. rewrite Hk. simpl. now apply py_index_ret. }
  exists i, p, k, r. repeat split; trivial.
  unfold analyze_boundary. rewrite Hmj. simpl. rewrite Hgt, Hi. simpl.
  rewrite (py_index_ret _ _ _ Hp). simpl. rewrite Hdev. reflexivity.
Qed.

Lemma analyze_boundary_within center c name :
  within c center -> analyze_boundary center c name = Ret None.
Proof.
  intros (mj & Hmj & Hle). unfold analyze_boundary. rewrite Hmj. simpl.
  now rewrite Hle.
Qed.

Lemma analyze_boundary_Some center c name d :
  analyze_boundary center c name = Ret (Some d) -> exceeds c center.
Proof.
  unfold analyze_boundary. intros H.
  apply bind_inv in H as (mj & Hmj & H).
  exists mj. split; [assumption|].
  destruct (JUMP_THRESHOLD <? mj)%float; [reflexivity|discriminate].
Qed.

Lemma analyze_boundary_shape center c name d :
  analyze_boundary center c name = Ret (Some d) ->
  exists ty p, d = defective_result ty p center.
Proof.
  intros H.
  destruct (analyze_boundary_exceeds center c name (analyze_boundary_Some _ _ _ _ H))
    as (i & p & k & r & _ & _ & _ & _ & _ & H').
  rewrite H in H'. injection H' as ->. eauto.
Qed.

Lemma analyze_boundary_None center c name :
  analyze_boundary center c name = Ret None -> within c center.
Proof.
  intros H. unfold analyze_boundary in H.
  apply bind_inv in H as (mj & Hmj & H).
  exists mj. split; [assumption|].
  destruct (JUMP_THRESHOLD <? mj)%float eqn:E; [|reflexivity].
  destruct (analyze_boundary_exceeds center c name) as (i & p & k & r & _ & _ & _ & _ & _ & H').
  { exists mj. auto. }
  unfold analyze_boundary in H'. rewrite Hmj in H'. simpl in H'. rewrite E in H'.
  congruence.
Qed.

Lemma exceeds_within_excl c center : exceeds c center -> within c center -> False.
Proof. intros (m & H1 & H2) (m' & H1' & H2'). congruence. Qed.

Lemma scan_cons_exceeds center c name rest :
  exceeds c center ->
  exists d, analyze_boundary center c name = Ret (Some d) /\
            scan_boundaries center ((c, name) :: rest) = Ret d.
Proof.
  intros H.
  destruct (analyze_boundary_exceeds center c name H)
    as (i & p & k & r & _ & _ & _ & _ & _ & Ha).
  eexists. split; [exact Ha|]. simpl. now rewrite Ha.
Qed.

Lemma scan_cons_within center c name rest :
  within c center ->
  scan_boundaries center ((c, name) :: rest) = scan_boundaries center rest.
Proof.
  intros H. simpl. now rewrite (analyze_boundary_within center c name H).
Qed.

(** What a completed scan of the two boundaries returns. *)
Lemma scan_two_inv center outer inner d :
  scan_boundaries center [(outer, "Outer"%string); (inner, "Inner"%string)] = Ret d ->
  (exceeds outer center /\ analyze_boundary center outer "Outer" = Ret (Some d)) \/
  (within outer center /\ exceeds inner center /\
   analyze_boundary center inner "Inner" = Ret (Some d)) \/
  (within outer center /\ within inner center /\ d = good_result).
Proof.
  simpl. intros H.
  apply bind_inv in H as ([d1|] & H1 & H).
  - left. injection H as <-. split; [eapply analyze_boundary_Some|]; eauto.
  - right. apply analyze_boundary_None in H1.
    apply bind_inv in H as ([d2|] & H2 & H).
    + left. injection H as <-. repeat split; trivial.
      eapply analyze_boundary_Some; eauto.
    + right. apply analyze_boundary_None in H2. injection H as <-. auto.
Qed.

(** ** Lookups in the three shapes of result *)

Lemma error_status msg : error_result msg !! "status" = Some (VStr "Error").
Proof. reflexivity. Qed.
Lemma error_location msg : error_result msg !! "location" = None.
Proof. reflexivity. Qed.
Lemma error_center msg : error_result msg !! "center" = None.
Proof. reflexivity. Qed.
Lemma defective_status ty p c :
  defective_result ty p c !! "status" = Some (VStr "Defective").
Proof. reflexivity. Qed.
Lemma defective_type ty p c :
  defective_result ty p c !! "defect_type" = Some (VStr ty).
Proof. reflexivity. Qed.
Lemma defective_location ty p c :
  defective_result ty p c !! "location" = Some (VTuple p).
Proof. reflexivity. Qed.
Lemma defective_center ty p c :
  defective_result ty p c !! "center" = Some (VTuple c).
Proof. reflexivity. Qed.
Lemma good_status : good_result !! "status" = Some (VStr "Good").
Proof. reflexivity. Qed.
Lemma good_location : good_result !! "location" = Some VNone.
Proof. reflexivity. Qed.
Lemma good_center : good_result !! "center" = None.
Proof. reflexivity. Qed.
Lemma error_type msg : error_result msg !! "defect_type" = Some (VStr msg).
Proof. reflexivity. Qed.
End ScanFacts.

(** ** Facts on the conversions between integers and floats *)
Module Rounding.

Lemma digits2_pos_bound m :
  2 ^ (Z.pos (digits2_pos m) - 1) <= Z.pos m < 2 ^ Z.pos (digits2_pos m).
Proof.
  induction m as [m IH|m IH|]; simpl digits2_pos.
  - rewrite Pos2Z.inj_succ. change (Z.pos m~1) with (2 * Z.pos m + 1).
    replace (Z.succ (Z.pos (digits2_pos m)) - 1) with (Z.succ (Z.pos (digits2_pos m) - 1)) by lia.
    rewrite !Z.pow_succ_r by lia.
    set (a := 2 ^ (Z.pos (digits2_pos m) - 1)) in *.
    set (b := 2 ^ Z.pos (digits2_pos m)) in *. clearbody a b. lia.
  - rewrite Pos2Z.inj_succ. change (Z.pos m~0) with (2 * Z.pos m).
    replace (Z.succ (Z.pos (digits2_pos m)) - 1) with (Z.succ (Z.pos (digits2_pos m) - 1)) by lia.
    rewrite !Z.pow_succ_r by lia.
    set (a := 2 ^ (Z.pos (digits2_pos m) - 1)) in *.
    set (b := 2 ^ Z.pos (digits2_pos m)) in *. clearbody a b. lia.
  - simpl. lia.
Qed.

Lemma digits2_pos_le m n : Z.pos m < 2 ^ n -> Z.pos (digits2_pos m) <= n.
Proof.
  intros H. destruct (Z.le_gt_cases (Z.pos (digits2_pos m)) n) as [|Hgt]; [assumption|].
  pose proof (digits2_pos_bound m) as [Hlo _].
  assert (0 <= n).
  { destruct (Z.le_gt_cases 0 n); [assumption|]. rewrite Z.pow_neg_r in H by lia. lia. }
  assert (2 ^ n <= 2 ^ (Z.pos (digits2_pos m) - 1)) by (apply Z.pow_le_mono_r; lia).
  lia.
Qed.

Lemma iter_xO_digits m k :
  digits2_pos (Pos.iter xO m k) = (digits2_pos m + k)%positive.
Proof.
  induction k as [|k IH] using Pos.peano_ind.
  - simpl. lia.
  - rewrite Pos.iter_succ. simpl. rewrite IH. lia.
Qed.

Lemma iter_xO_value m k : Z.pos (Pos.iter xO m k) = Z.pos m * 2 ^ Z.pos k.
Proof.
  induction k as [|k IH] using Pos.peano_ind.
  - simpl. lia.
  - rewrite Pos.iter_succ.
    change (Z.pos (Pos.iter xO m k)~0) with (2 * Z.pos (Pos.iter xO m k)).
    rewrite IH, Pos2Z.inj_succ, Z.pow_succ_r by lia. lia.
Qed.

(** A mantissa of 53 bits is left as it is by the rounding. *)
Lemma binary_round_aux_exact s mz ez :
  digits2_pos mz = 53%positive -> -1074 <= ez <= 971 ->
  binary_round_aux prec emax s (Z.pos mz) ez loc_Exact = S754_finite s mz ez.
Proof.
  intros Hd He. unfold binary_round_aux, shr_fexp, fexp, SpecFloat.emin, Zdigits2.
  rewrite Hd. unfold prec, emax.
  replace (Z.max (53 + ez - 53) (3 - 1024 - 53) - ez) with 0 by lia.
  simpl. rewrite Hd.
  replace (Z.max (53 + ez - 53) (3 - 1024 - 53) - ez) with 0 by lia.
  simpl. destruct (Z.leb_spec ez (1024 - 53)); [reflexivity|lia].
Qed.

Lemma valid_binary_exact s mz ez :
  digits2_pos mz = 53%positive -> -1074 <= ez <= 971 ->
  valid_binary (S754_finite s mz ez) = true.
Proof.
  intros Hd He. unfold SpecFloat.valid_binary, bounded, canonical_mantissa, fexp, SpecFloat.emin.
  rewrite Hd. unfold prec, emax.
  apply andb_true_intro. split; [apply Z.eqb_eq|apply Z.leb_le]; lia.
Qed.

(** Half of a positive integer below 2^53 is a float with the same value. *)
Lemma binary_round_half s m :
  Z.pos m < 2 ^ 53 ->
  exists mz ez,
    binary_round prec emax s m (-1) = S754_finite s mz ez /\
    valid_binary (S754_finite s mz ez) = true /\
    ez < 0 /\ Z.pos mz = Z.pos m * 2 ^ (- ez - 1).
Proof.
  intros Hm. pose proof (digits2_pos_le m 53 Hm) as Hd.
  pose proof (Pos2Z.is_pos (digits2_pos m)) as Hd0.
  unfold binary_round, shl_align, fexp, SpecFloat.emin. unfold prec, emax.
  replace (Z.max (Z.pos (digits2_pos m) + -1 - 53) (3 - 1024 - 53))
    with (Z.pos (digits2_pos m) - 54) by lia.
  destruct (Z.pos (digits2_pos m) - 54 - -1) as [|p|p] eqn:E; try lia.
  - assert (Hd53 : digits2_pos m = 53%positive) by lia.
    exists m, (-1). change prec with 53. change emax with 1024.
    rewrite binary_round_aux_exact by (trivial; lia).
    split; [reflexivity|]. split; [apply valid_binary_exact; trivial; lia|].
    split; [lia|]. simpl. lia.
  - assert (Hd53 : digits2_pos (Pos.iter xO m p) = 53%positive).
    { rewrite iter_xO_digits. lia. }
    exists (Pos.iter xO m p), (Z.pos (digits2_pos m) - 54).
    change prec with 53. change emax with 1024.
    rewrite binary_round_aux_exact by (trivial; lia).
    split; [reflexivity|]. split; [apply valid_binary_exact; trivial; lia|].
    split; [lia|]. rewrite iter_xO_value. f_equal. f_equal. lia.
Qed.

Lemma is_infinity_finite s m e :
  valid_binary (S754_finite s m e) = true ->
  is_infinity (SF2Prim (S754_finite s m e)) = false.
Proof.
  intros Hv. unfold is_infinity.
  rewrite FloatAxioms.eqb_spec, abs_spec, Prim2SF_SF2Prim by assumption.
  reflexivity.
Qed.

Lemma py_int_finite s m e :
  valid_binary (S754_finite s m e) = true ->
  py_int (SF2Prim (S754_finite s m e)) =
    Ret (if s then - Z.shiftl (Z.pos m) e else Z.shiftl (Z.pos m) e).
Proof.
  intros Hv. unfold py_int. now rewrite Prim2SF_SF2Prim by assumption.
Qed.

Lemma shiftl_half m mz ez :
  ez < 0 -> Z.pos mz = Z.pos m * 2 ^ (- ez - 1) ->
  Z.shiftl (Z.pos mz) ez = Z.pos m / 2.
Proof.
  intros Hez Hval.
  rewrite <- (Z.opp_involutive ez) at 1. rewrite Z.shiftl_opp_r.
  rewrite Z.shiftr_div_pow2 by lia. rewrite Hval.
  replace (- ez) with (Z.succ (- ez - 1)) at 2 by lia.
  rewrite Z.pow_succ_r by lia.
  apply Z.div_mul_cancel_r; [lia|].
  apply Z.pow_nonzero; lia.
Qed.

(** [int(n / 2)] on an integer that a float holds exactly. *)
Lemma py_int_half n :
  - 2 ^ 53 < n < 2 ^ 53 ->
  (q ← py_truediv_int_2 n; py_int q) = Ret (Z.quot n 2).
Proof.
  intros Hn. destruct n as [|m|m].
  - reflexivity.
  - destruct (binary_round_half false m) as (mz & ez & Hr & Hv & Hez & Hval); [lia|].
    unfold py_truediv_int_2, binary_normalize. rewrite Hr.
    rewrite is_infinity_finite by assumption. unfold mbind, pyres_bind.
    rewrite py_int_finite by assumption.
    rewrite (shiftl_half m mz ez Hez Hval). f_equal.
    symmetry. apply Z.quot_div_nonneg; lia.
  - destruct (binary_round_half true m) as (mz & ez & Hr & Hv & Hez & Hval); [lia|].
    unfold py_truediv_int_2, binary_normalize. rewrite Hr.
    rewrite is_infinity_finite by assumption. unfold mbind, pyres_bind.
    rewrite py_int_finite by assumption.
    rewrite (shiftl_half m mz ez Hez Hval). f_equal.
    change (Z.neg m) with (- Z.pos m). rewrite Z.quot_opp_l by lia.
    f_equal. symmetry. apply Z.quot_div_nonneg; lia.
Qed.

Lemma center_of_quot c_outer c_inner :
  - 2 ^ 53 < c_outer.1 + c_inner.1 < 2 ^ 53 ->
  - 2 ^ 53 < c_outer.2 + c_inner.2 < 2 ^ 53 ->
  center_of c_outer c_inner =
    Ret (Z.quot (c_outer.1 + c_inner.1) 2, Z.quot (c_outer.2 + c_inner.2) 2).
Proof.
  intros Hx Hy. unfold center_of.
  pose proof (py_int_half _ Hx) as Ex. pose proof (py_int_half _ Hy) as Ey.
  destruct (py_truediv_int_2 (c_outer.1 + c_inner.1)) as [qx|]; [|discriminate].
  simpl in Ex |- *. rewrite Ex. simpl.
  destruct (py_truediv_int_2 (c_outer.2 + c_inner.2)) as [qy|]; [|discriminate].
  simpl in Ey |- *. rewrite Ey. reflexivity.
Qed.

(** [int] drops the fraction: the result is the exact value truncated
    toward zero. *)
Lemma py_int_trunc f z : py_int f = Ret z -> z = Qtrunc (Qvalue f).
Proof.
  unfold py_int, Qvalue. destruct (Prim2SF f) as [s|s| |s m e]; try discriminate.
  - intros [= <-]. reflexivity.
  - intros [= <-]. destruct (Z.leb_spec 0 e) as [He|He].
    + rewrite Z.shiftl_mul_pow2 by assumption.
      assert (Hp : 0 < 2 ^ e) by (apply Z.pow_pos_nonneg; lia).
      unfold Qtrunc. destruct s.
      * rewrite Qceiling_Z, Qfloor_Z.
        destruct (Qle_bool 0 (inject_Z (Z.neg m * 2 ^ e))); lia.
      * rewrite Qceiling_Z, Qfloor_Z.
        destruct (Qle_bool 0 (inject_Z (Z.pos m * 2 ^ e))); lia.
    + assert (Hs : Z.shiftl (Z.pos m) e = Z.pos m / 2 ^ (- e)).
      { rewrite <- (Z.opp_involutive e) at 1. rewrite Z.shiftl_opp_r.
        apply Z.shiftr_div_pow2. lia. }
      rewrite Hs.
      assert (Hd : Z.pos (2 ^ Z.to_pos (- e)) = 2 ^ (- e)).
      { rewrite Pos2Z.inj_pow, Z2Pos.id by lia. reflexivity. }
      unfold Qtrunc. destruct s.
      * replace (Qle_bool 0 (Z.neg m # 2 ^ Z.to_pos (- e))) with false.
        -- unfold Qceiling, Qfloor, Qopp. cbn [Qnum Qden].
           rewrite Hd. reflexivity.
        -- symmetry. apply not_true_is_false. intros H. apply Qle_bool_imp_le in H.
           unfold Qle in H. simpl in H. lia.
      * replace (Qle_bool 0 (Z.pos m # 2 ^ Z.to_pos (- e))) with true.
        -- unfold Qfloor. rewrite Hd. reflexivity.
        -- symmetry. apply Qle_bool_iff. unfold Qle. simpl. lia.
Qed.
End Rounding.

(** ** The stable descending sort *)
Section SortFacts.
Import FloatOrder.
Context {A : Type}.

Lemma length_index_from (l : list A) n : length (index_from n l) = length l.
Proof. revert n. induction l as [|x l IH]; intros n; simpl; [reflexivity|]. now rewrite IH. Qed.

Lemma map_snd_index_from (l : list A) : forall n, (index_from n l).*2 = l.
Proof. induction l as [|x l IH]; intros n; simpl; [reflexivity|]. now rewrite IH. Qed.

Lemma elem_of_index_from (l : list A) : forall n k c,
  (k, c) ∈ index_from n l <-> (n <= k)%nat /\ l !! (k - n)%nat = Some c.
Proof.
  induction l as [|x l IH]; intros n k c; simpl.
  - rewrite elem_of_nil. split; [tauto|]. intros [_ H]. discriminate.
  - rewrite elem_of_cons, IH. split.
    + intros [[= -> ->]|[Hle Hk]].
      * split; [lia|]. now rewrite Nat.sub_diag.
      * split; [lia|]. replace (k - n)%nat with (S (k - S n)) by lia. exact Hk.
    + intros [Hle Hk]. destruct (decide (k = n)) as [->|Hne].
      * left. rewrite Nat.sub_diag in Hk. simpl in Hk. congruence.
      * right. split; [lia|].
        replace (k - n)%nat with (S (k - S n)) in Hk by lia. exact Hk.
Qed.

Lemma index_from_fst_lt (l : list A) : forall n e, e ∈ index_from n l -> (n <= e.1)%nat.
Proof.
  intros n [k c] H. apply elem_of_index_from in H. simpl. tauto.
Qed.

Lemma NoDup_index_from (l : list A) : forall n, NoDup (index_from n l).*1.
Proof.
  induction l as [|x l IH]; intros n; simpl; constructor; [|apply IH].
  intros H. apply list_elem_of_fmap in H as ([k c] & Hk & He). simpl in Hk. subst k.
  apply index_from_fst_lt in He. simpl in He. lia.
Qed.

Context (key : A -> float).

Lemma insert_desc_index (x : nat * A) l :
  (insert_desc (ikey key) x l).*2 = insert_desc key x.2 l.*2.
Proof.
  induction l as [|y l IH]; [reflexivity|].
  cbn [insert_desc]. rewrite !fmap_cons. cbn [insert_desc]. unfold ikey at 1 2.
  destruct (key x.2 <? key y.2)%float; rewrite !fmap_cons; [|reflexivity].
  now rewrite IH.
Qed.

Lemma sorted_desc_index (l : list (nat * A)) :
  (sorted_desc (ikey key) l).*2 = sorted_desc key l.*2.
Proof.
  induction l as [|x l IH]; [reflexivity|].
  cbn [sorted_desc]. rewrite insert_desc_index, IH. reflexivity.
Qed.

Lemma insert_desc_perm {B} (k : B -> float) x l : insert_desc k x l ≡ₚ x :: l.
Proof.
  induction l as [|y l IH]; simpl; [reflexivity|].
  destruct (k x <? k y)%float; [|reflexivity].
  rewrite IH. apply Permutation_swap.
Qed.

Lemma sorted_desc_perm {B} (k : B -> float) l : sorted_desc k l ≡ₚ l.
Proof.
  induction l as [|x l IH]; simpl; [reflexivity|].
  now rewrite insert_desc_perm, IH.
Qed.

Lemma insert_desc_sorted (x : nat * A) l :
  is_nan (ikey key x) = false ->
  Forall (fun e => is_nan (ikey key e) = false) l ->
  Forall (fun e => (x.1 < e.1)%nat) l ->
  StronglySorted (ranked_before key) l ->
  StronglySorted (ranked_before key) (insert_desc (ikey key) x l).
Proof.
  intros Hx. induction l as [|y l IH]; intros Hnan Hidx Hs; simpl.
  - repeat constructor.
  - inversion Hnan as [|? ? Hy Hnan']; subst.
    inversion Hidx as [|? ? Hxy Hidx']; subst.
    inversion Hs as [|? ? Hs' Hyl]; subst.
    destruct (ikey key x <? ikey key y)%float eqn:E.
    + constructor; [now apply IH|].
      rewrite insert_desc_perm. constructor; [|assumption].
      split; [now apply ltb_leb|]. intros _. exact E.
    + assert (Hyx : (ikey key y <=? ikey key x)%float = true).
      { rewrite ltb_negb_leb in E by assumption.
        now destruct (ikey key y <=? ikey key x)%float. }
      constructor; [assumption|]. constructor.
      * split; [assumption|]. intros H. lia.
      * rewrite Forall_forall in Hyl, Hidx' |- *. intros e He.
        destruct (Hyl e He) as [Hey _]. specialize (Hidx' e He).
        split; [eapply leb_trans; eauto|]. intros H. lia.
Qed.

Lemma sorted_desc_sorted (l : list A) : forall n,
  Forall (fun c => is_nan (key c) = false) l ->
  StronglySorted (ranked_before key) (sorted_desc (ikey key) (index_from n l)).
Proof.
  induction l as [|x l IH]; intros n Hnan; simpl; [constructor|].
  inversion Hnan as [|? ? Hx Hnan']; subst.
  apply insert_desc_sorted; [exact Hx| | |now apply IH].
  - rewrite sorted_desc_perm. rewrite Forall_forall. intros [k c] He.
    apply elem_of_index_from in He as [_ He]. unfold ikey. simpl.
    rewrite Forall_forall in Hnan'. apply Hnan'. eapply list_elem_of_lookup_2; eauto.
  - rewrite sorted_desc_perm. rewrite Forall_forall. intros e He.
    apply index_from_fst_lt in He. simpl. lia.
Qed.
End SortFacts.

(** ** The run of the inspection *)
Section InspectFacts.
Import FloatOrder NumpyFacts ScanFacts Rounding.
Context {Image : Type}.
Variable cv2_threshold : Image -> Image.
Variable cv2_findContours : Image -> list Contour.
Variable cv2_contourArea : Contour -> float.
Variable cv2_moments : Contour -> Moments.

Local Abbreviation run :=
  (find_and_analyze_ring cv2_threshold cv2_findContours cv2_contourArea cv2_moments).
Local Abbreviation reg :=
  (registered cv2_threshold cv2_findContours cv2_contourArea cv2_moments).
Local Abbreviation traced img := (cv2_findContours (cv2_threshold img)).

Lemma length_insert_desc {A} (key : A -> float) x l :
  length (insert_desc key x l) = S (length l).
Proof.
  induction l as [|y l IH]; simpl; [reflexivity|].
  destruct (key x <? key y)%float; simpl; congruence.
Qed.

Lemma length_sorted_desc {A} (key : A -> float) l :
  length (sorted_desc key l) = length l.
Proof.
  induction l as [|x l IH]; simpl; [reflexivity|].
  now rewrite length_insert_desc, IH.
Qed.

Lemma select_two contours :
  (2 <= length contours)%nat ->
  exists outer inner, select cv2_contourArea contours = [outer; inner].
Proof.
  intros H. unfold select.
  pose proof (length_sorted_desc cv2_contourArea contours) as Hl.
  destruct (sorted_desc cv2_contourArea contours) as [|o [|i l]]; simpl in *; try lia.
  eauto.
Qed.

Lemma run_short img :
  (length (traced img) < 2)%nat -> run img = Ret (error_result "Segmentation Failed").
Proof.
  intros H. unfold find_and_analyze_ring.
  destruct (Nat.ltb_spec (length (traced img)) 2); [reflexivity|lia].
Qed.

Lemma run_selected img outer inner :
  (2 <= length (traced img))%nat ->
  select cv2_contourArea (traced img) = [outer; inner] ->
  run img =
    match (c_outer ← centroid cv2_moments outer;
           c_inner ← centroid cv2_moments inner;
           Ret (c_outer, c_inner)) with
    | Raise ZeroDivisionError => Ret (error_result "Could not calculate moments")
    | Raise e => Raise e
    | Ret (c_outer, c_inner) =>
        center ← center_of c_outer c_inner;
        scan_boundaries center [(outer, "Outer"%string); (inner, "Inner"%string)]
    end.
Proof.
  intros H Hs. unfold find_and_analyze_ring.
  destruct (Nat.ltb_spec (length (traced img)) 2); [lia|].
  now rewrite Hs.
Qed.

Lemma run_registered img outer inner center :
  reg img outer inner center ->
  run img = scan_boundaries center [(outer, "Outer"%string); (inner, "Inner"%string)].
Proof.
  intros (Hlen & Hsel & co & ci & Hco & Hci & Hc).
  rewrite (run_selected img outer inner Hlen Hsel), Hco, Hci. simpl.
  now rewrite Hc.
Qed.

(** Every completed run ends in one of the two error results or in the scan. *)
Lemma run_inv img d :
  run img = Ret d ->
  ((length (traced img) < 2)%nat /\ d = error_result "Segmentation Failed") \/
  ((2 <= length (traced img))%nat /\ d = error_result "Could not calculate moments") \/
  exists outer inner center,
    reg img outer inner center /\
    scan_boundaries center [(outer, "Outer"%string); (inner, "Inner"%string)] = Ret d.
Proof.
  intros H.
  destruct (Nat.lt_ge_cases (length (traced img)) 2) as [Hlt|Hge].
  - left. rewrite run_short in H by assumption. split; congruence.
  - right. destruct (select_two _ Hge) as (outer & inner & Hsel).
    rewrite (run_selected img outer inner Hge Hsel) in H.
    destruct (centroid cv2_moments outer) as [co|e] eqn:Hco; simpl in H.
    + destruct (centroid cv2_moments inner) as [ci|e] eqn:Hci; simpl in H.
      * right. apply bind_inv in H as (c & Hc & H).
        exists outer, inner, c. split; [|assumption].
        repeat split; trivial. eauto.
      * left. destruct e; try discriminate. split; congruence.
    + left. destruct e; try discriminate. split; congruence.
Qed.

Lemma run_defective_inv img d :
  run img = Ret d -> d !! "status" = Some (VStr "Defective") ->
  exists outer inner center contour name,
    reg img outer inner center /\
    ((contour = outer /\ name = "Outer"%string) \/
     (contour = inner /\ name = "Inner"%string /\ within outer center)) /\
    exceeds contour center /\
    analyze_boundary center contour name = Ret (Some d).
Proof.
  intros H Hst.
  destruct (run_inv img d H) as [[_ ->]|[[_ ->]|(outer & inner & c & Hreg & Hscan)]];
    try (rewrite error_status in Hst; discriminate).
  destruct (scan_two_inv _ _ _ _ Hscan) as [[Ho Ha]|[(Ho & Hi & Ha)|(_ & _ & ->)]].
  - exists outer, inner, c, outer, "Outer"%string. auto 10.
  - exists outer, inner, c, inner, "Inner"%string. auto 10.
  - discriminate.
Qed.
End InspectFacts.

(** ** The properties of the inspection *)
Section Claims.
Import FloatOrder NumpyFacts ScanFacts Rounding.
Context {Image : Type}.
Variable cv2_threshold : Image -> Image.
Variable cv2_findContours : Image -> list Contour.
Variable cv2_contourArea : Contour -> float.
Variable cv2_moments : Contour -> Moments.

Local Abbreviation run :=
  (find_and_analyze_ring cv2_threshold cv2_findContours cv2_contourArea cv2_moments).
Local Abbreviation reg :=
  (registered cv2_threshold cv2_findContours cv2_contourArea cv2_moments).
Local Abbreviation traced img := (cv2_findContours (cv2_threshold img)).
Local Abbreviation area := cv2_contourArea.

Lemma centroid_zero_area c :
  (m00 (cv2_moments c) =? 0)%float = true ->
  centroid cv2_moments c = Raise ZeroDivisionError.
Proof. intros H. unfold centroid, py_truediv. cbv zeta. now rewrite H. Qed.

Lemma centroid_trunc c p :
  centroid cv2_moments c = Ret p -> p = truncated_centroid cv2_moments c.
Proof.
  unfold centroid, truncated_centroid, py_truediv. cbv zeta.
  destruct (m00 (cv2_moments c) =? 0)%float; [discriminate|].
  unfold mbind, pyres_bind, mret, pyres_ret.
  destruct (py_int (m10 (cv2_moments c) / m00 (cv2_moments c))) as [x|] eqn:Ex;
    [|discriminate].
  destruct (py_int (m01 (cv2_moments c) / m00 (cv2_moments c))) as [y|] eqn:Ey;
    [|discriminate].
  intros [= <-]. now rewrite (py_int_trunc _ _ Ex), (py_int_trunc _ _ Ey).
Qed.

Lemma center_of_inv c_outer c_inner center :
  center_of c_outer c_inner = Ret center ->
  (- 2 ^ 53 < c_outer.1 + c_inner.1 < 2 ^ 53 ->
     center.1 = Z.quot (c_outer.1 + c_inner.1) 2) /\
  (- 2 ^ 53 < c_outer.2 + c_inner.2 < 2 ^ 53 ->
     center.2 = Z.quot (c_outer.2 + c_inner.2) 2).
Proof.
  unfold center_of. intros H.
  apply bind_inv in H as (qx & Hqx & H). apply bind_inv in H as (x & Hx & H).
  apply bind_inv in H as (qy & Hqy & H). apply bind_inv in H as (y & Hy & H).
  injection H as <-. simpl. split; intros Hb.
  - pose proof (py_int_half _ Hb) as E. rewrite Hqx in E. simpl in E. congruence.
  - pose proof (py_int_half _ Hb) as E. rewrite Hqy in E. simpl in E. congruence.
Qed.

(** When neither boundary has a jump above the threshold the part is Good. *)
Lemma both_within_good img outer inner center :
  reg img outer inner center ->
  within outer center -> within inner center ->
  run img = Ret good_result.
Proof.
  intros Hreg Ho Hi. rewrite (run_registered _ _ _ _ _ _ _ _ Hreg).
  now rewrite (scan_cons_within _ _ _ _ Ho), (scan_cons_within _ _ _ _ Hi).
Qed.

(** C1 (amended): in a Defective result the registration center is obtained
    by truncation, not by rounding to the nearest integer: each centroid
    coordinate [m10/m00], [m01/m00] of the two selected contours is first cut
    to its integer part, and each coordinate of the center is [int] of half the
    sum of the two integer coordinates, which is the quotient of the sum by 2
    truncated toward zero (for sums that a float holds exactly). *)
Theorem center_truncated_midpoint img d :
  run img = Ret d -> d !! "status" = Some (VStr "Defective") ->
  exists outer inner c_outer c_inner center,
    select area (traced img) = [outer; inner] /\
    c_outer = truncated_centroid cv2_moments outer /\
    c_inner = truncated_centroid cv2_moments inner /\
    center_of c_outer c_inner = Ret center /\
    d !! "center" = Some (VTuple center) /\
    (- 2 ^ 53 < c_outer.1 + c_inner.1 < 2 ^ 53 ->
       center.1 = Z.quot (c_outer.1 + c_inner.1) 2) /\
    (- 2 ^ 53 < c_outer.2 + c_inner.2 < 2 ^ 53 ->
       center.2 = Z.quot (c_outer.2 + c_inner.2) 2).
Proof.
  intros Hrun Hst.
  destruct (run_defective_inv _ _ _ _ img d Hrun Hst)
    as (outer & inner & center & contour & name & Hreg & _ & _ & Ha).
  destruct Hreg as (_ & Hsel & co & ci & Hco & Hci & Hc).
  destruct (analyze_boundary_shape _ _ _ _ Ha) as (ty & p & ->).
  exists outer, inner, co, ci, center.
  split; [exact Hsel|]. split; [now apply centroid_trunc|].
  split; [now apply centroid_trunc|]. split; [exact Hc|].
  split; [apply defective_center|]. now apply center_of_inv.
Qed.

(** C3: the outer boundary is scanned first and the function returns at the
    first boundary above the threshold.  When the largest jumps of both
    boundaries exceed the threshold, the result is Defective with the defect
    type and the location of the outer boundary, and the inner boundary is not
    evaluated: the loop returns the same result whatever sequence of points
    stands in its place. *)
Theorem outer_boundary_first img outer inner center :
  reg img outer inner center ->
  exceeds outer center -> exceeds inner center ->
  exists i location dev,
    np_argmax (diffs outer center) = Ret i /\
    outer !! i = Some location /\
    dev_radius outer center = Ret dev /\
    let d := defective_result (classify "Outer" dev (avg_radius outer center))
               location center in
    run img = Ret d /\
    forall other : Contour,
      scan_boundaries center [(outer, "Outer"%string); (other, "Inner"%string)] = Ret d.
Proof.
  intros Hreg Ho _.
  destruct (analyze_boundary_exceeds center outer "Outer" Ho)
    as (i & p & k & r & Hi & Hp & Hk & Hr & Hdev & Ha).
  exists i, p, r. repeat split; trivial.
  - rewrite (run_registered _ _ _ _ _ _ _ _ Hreg). simpl. now rewrite Ha.
  - intros other. simpl. now rewrite Ha.
Qed.

(** C4: the location of every Defective result is the contour point at
    [jump_index], the position [np.argmax] finds in the circular first
    differences of the radii.  The position of the largest absolute deviation
    from the mean radius is computed apart from it and can be another one: on
    the contour [kite] seen from (19, 20) the largest jump is at position 3 and
    the largest deviation at position 2. *)
Theorem location_at_jump_index :
  (forall img d,
     run img = Ret d -> d !! "status" = Some (VStr "Defective") ->
     exists outer inner center contour jump_index location,
       reg img outer inner center /\
       (contour = outer \/ contour = inner) /\
       np_argmax (diffs contour center) = Ret jump_index /\
       contour !! jump_index = Some location /\
       d !! "location" = Some (VTuple location)) /\
  (exists contour center jump_index deviation_index,
     np_argmax (diffs contour center) = Ret jump_index /\
     np_argmax (deviations contour center) = Ret deviation_index /\
     jump_index <> deviation_index /\
     contour !! jump_index <> contour !! deviation_index).
Proof.
  split.
  - intros img d Hrun Hst.
    destruct (run_defective_inv _ _ _ _ img d Hrun Hst)
      as (outer & inner & center & contour & name & Hreg & Hsel & Hex & Ha).
    destruct (analyze_boundary_exceeds center contour name Hex)
      as (i & p & k & r & Hi & Hp & Hk & Hr & Hdev & Ha').
    rewrite Ha in Ha'. injection Ha' as ->.
    exists outer, inner, center, contour, i, p.
    split; [exact Hreg|]. split; [|now auto].
    destruct Hsel as [[-> _]|(-> & _)]; auto.
  - exists kite, (19, 20), 3%nat, 2%nat.
    repeat split; try (vm_compute; reflexivity); discriminate.
Qed.

(** C6: when fewer than two contours are traced (none or one), the result is
    the Error result with the message "Segmentation Failed", whatever else the
    image holds. *)
Theorem segmentation_failed img :
  (length (traced img) < 2)%nat ->
  run img = Ret (error_result "Segmentation Failed").
Proof. apply run_short. Qed.

(** C7: when at least two contours are traced and one of the two selected
    contours has a zero [m00] (it encloses no area), the result is the Error
    result with the message "Could not calculate moments"; the scan is not
    reached.  The moments of an outer contour of non-zero area are assumed to
    give a centroid, as those of OpenCV do. *)
Theorem zero_area_error img outer inner :
  (2 <= length (traced img))%nat ->
  select area (traced img) = [outer; inner] ->
  (m00 (cv2_moments outer) =? 0)%float = true \/
  (m00 (cv2_moments inner) =? 0)%float = true ->
  ((m00 (cv2_moments outer) =? 0)%float = false ->
     exists c_outer, centroid cv2_moments outer = Ret c_outer) ->
  run img = Ret (error_result "Could not calculate moments").
Proof.
  intros Hlen Hsel Hz Hfin.
  rewrite (run_selected _ _ _ _ img outer inner Hlen Hsel).
  destruct (m00 (cv2_moments outer) =? 0)%float eqn:Eo.
  - now rewrite (centroid_zero_area outer Eo).
  - destruct Hz as [Hz|Hz]; [discriminate|].
    destruct (Hfin eq_refl) as [co ->].
    now rewrite (centroid_zero_area inner Hz).
Qed.

(** C8: in every returned result, [location] is populated exactly when the
    status is Defective, and so is [center]; Good and Error results carry
    neither a location nor a center. *)
Theorem location_center_iff_defective img d :
  run img = Ret d ->
  (populated d "location" <-> d !! "status" = Some (VStr "Defective")) /\
  (populated d "center" <-> d !! "status" = Some (VStr "Defective")).
Proof.
  intros H.
  assert (Hshape : (exists msg, d = error_result msg) \/ d = good_result \/
                   exists ty p c, d = defective_result ty p c).
  { destruct (run_inv _ _ _ _ img d H) as [[_ ->]|[[_ ->]|(o & i & c & _ & Hs)]]; eauto.
    destruct (scan_two_inv _ _ _ _ Hs) as [[Ho Ha]|[(_ & Ho & Ha)|(_ & _ & ->)]]; auto;
      destruct (analyze_boundary_shape _ _ _ _ Ha) as (ty & p & ->); eauto 10. }
  unfold populated.
  destruct Hshape as [[msg ->]|[->|(ty & p & c & ->)]].
  - rewrite error_status, error_location, error_center.
    split; split; try discriminate; intros (v & Hv & _); discriminate.
  - rewrite good_status, good_location, good_center.
    split; split; try discriminate; intros (v & Hv & Hn); congruence.
  - rewrite defective_status, defective_location, defective_center.
    split; split; try reflexivity; intros _; eexists; (split; [reflexivity|discriminate]).
Qed.

(** C10: ties are decided by the first position.  In a Defective result (on
    profiles without NaN) the location is the contour point at the smallest
    position where the circular first difference of the radii is largest, and
    the defect type compares with the mean the radius at the smallest position
    where the absolute deviation from the mean is largest. *)
Theorem ties_take_first_index img outer inner center d :
  reg img outer inner center ->
  run img = Ret d -> d !! "status" = Some (VStr "Defective") ->
  no_nan (diffs outer center) -> no_nan (deviations outer center) ->
  no_nan (diffs inner center) -> no_nan (deviations inner center) ->
  exists contour name jump_index location deviation_index dev,
    ((contour = outer /\ name = "Outer"%string) \/
     (contour = inner /\ name = "Inner"%string)) /\
    first_max (diffs contour center) jump_index /\
    contour !! jump_index = Some location /\
    d !! "location" = Some (VTuple location) /\
    first_max (deviations contour center) deviation_index /\
    radii contour center !! deviation_index = Some dev /\
    d !! "defect_type" = Some (VStr (classify name dev (avg_radius contour center))).
Proof.
  intros Hreg Hrun Hst Hdo Hvo Hdi Hvi.
  rewrite (run_registered _ _ _ _ _ _ _ _ Hreg) in Hrun.
  assert (Hcase : exists contour name,
             ((contour = outer /\ name = "Outer"%string) \/
              (contour = inner /\ name = "Inner"%string)) /\
             exceeds contour center /\
             analyze_boundary center contour name = Ret (Some d)).
  { destruct (scan_two_inv _ _ _ _ Hrun) as [[Ho Ha]|[(_ & Ho & Ha)|(_ & _ & ->)]].
    - exists outer, "Outer"%string. auto.
    - exists inner, "Inner"%string. auto.
    - discriminate. }
  destruct Hcase as (contour & name & Hsel & Hex & Ha).
  destruct (analyze_boundary_exceeds center contour name Hex)
    as (i & p & k & r & Hi & Hp & Hk & Hr & Hdev & Ha').
  rewrite Ha in Ha'. injection Ha' as ->.
  assert (Hn : no_nan (diffs contour center) /\ no_nan (deviations contour center)).
  { destruct Hsel as [[-> _]|[-> _]]; auto. }
  destruct Hn as [Hn1 Hn2].
  exists contour, name, i, p, k, r. repeat split; trivial.
  - now apply np_argmax_first_max.
  - now apply np_argmax_first_max.
Qed.

End Claims.

(** ** The selection of the two boundaries *)
Section Selection.
Import FloatOrder.
Variable cv2_contourArea : Contour -> float.
Local Abbreviation area := cv2_contourArea.

(** C9: from two or more contours (whose areas are numbers), the two selected
    are the two of largest area in descending order: the outer one is the first
    contour, in the order of the tracer, whose area no other exceeds, and the
    inner one is the first such contour among the others.  The area of the
    inner one is at most that of the outer one, and when the two areas tie the
    outer one is the contour the tracer returned earlier. *)
Theorem two_largest_selected (contours : list Contour) :
  (2 <= length contours)%nat ->
  Forall (fun c => is_nan (area c) = false) contours ->
  exists i j outer inner,
    select area contours = [outer; inner] /\
    largest_except area contours None i outer /\
    largest_except area contours (Some i) j inner /\
    (area inner <=? area outer)%float = true /\
    ((area outer <=? area inner)%float = true -> (i < j)%nat).
Proof.
  intros Hlen Hnan.
  pose proof (sorted_desc_sorted area contours 0 Hnan) as Hs.
  pose proof (sorted_desc_perm (ikey area) (index_from 0 contours)) as Hp.
  pose proof (sorted_desc_index area (index_from 0 contours)) as Hm.
  rewrite map_snd_index_from in Hm.
  assert (Hin : forall k c, (k, c) ∈ sorted_desc (ikey area) (index_from 0 contours)
                            <-> contours !! k = Some c).
  { intros k c. rewrite Hp, elem_of_index_from, Nat.sub_0_r.
    split; [tauto|]. intros H. split; [lia|exact H]. }
  assert (Hnd : NoDup (sorted_desc (ikey area) (index_from 0 contours)).*1).
  { rewrite Hp. apply NoDup_index_from. }
  assert (Hl : length (sorted_desc (ikey area) (index_from 0 contours)) = length contours).
  { rewrite Hp. apply length_index_from. }
  assert (Hrefl : forall k c, contours !! k = Some c -> (area c <=? area c)%float = true).
  { intros k c Hk. apply leb_refl. rewrite Forall_forall in Hnan. apply Hnan.
    eapply list_elem_of_lookup_2; eauto. }
  unfold select. rewrite <- Hm.
  destruct (sorted_desc (ikey area) (index_from 0 contours)) as [|[i o] [|[j c2] rest]];
    simpl in Hl; try lia.
  apply StronglySorted_inv in Hs as [Hs Ho].
  apply StronglySorted_inv in Hs as [_ Hc2].
  apply Forall_cons in Ho as [Hoc Ho].
  rewrite Forall_forall in Ho, Hc2.
  rewrite !fmap_cons in Hnd. simpl in Hnd.
  apply NoDup_cons in Hnd as [Hij _].
  assert (Hne : i <> j) by (intros ->; apply Hij; left).
  assert (Hio : contours !! i = Some o) by (apply Hin; left).
  assert (Hjc : contours !! j = Some c2) by (apply Hin; right; left).
  exists i, j, o, c2. split; [reflexivity|]. split; [|split; [|split]].
  - split; [exact Hio|]. split; [discriminate|]. intros k c' Hk _.
    apply (proj2 (Hin _ _)) in Hk. apply elem_of_cons in Hk as [[= -> ->]|Hk].
    + split; [eauto|lia].
    + apply elem_of_cons in Hk as [[= -> ->]|Hk]; [exact Hoc|exact (Ho _ Hk)].
  - split; [exact Hjc|]. split; [congruence|]. intros k c' Hk Hski.
    apply (proj2 (Hin _ _)) in Hk.
    apply elem_of_cons in Hk as [[= -> ->]|Hk]; [congruence|].
    apply elem_of_cons in Hk as [[= -> ->]|Hk].
    + split; [eauto|lia].
    + exact (Hc2 _ Hk).
  - exact (proj1 Hoc).
  - intros Hle. destruct (Nat.lt_ge_cases i j) as [H|H]; [exact H|].
    assert (Hlt : (area c2 <? area o)%float = true) by (apply (proj2 Hoc); simpl; lia).
    apply leb_ltb_false in Hle. congruence.
Qed.

End Selection.

(** ** The inspection run on sample images *)

Lemma no_nan_forallb a : forallb (fun x => negb (is_nan x)) a = true -> no_nan a.
Proof.
  unfold no_nan. induction a as [|x a IH]; simpl; intros H; constructor.
  - apply andb_prop in H as [H _]. now destruct (is_nan x).
  - apply IH. now apply andb_prop in H as [_ H].
Qed.

(** Two triangles of centroid (6.67, 6.67): both boundaries show a jump, the
    outer one is reported. *)
Lemma tri_run :
  Polygon.inspect [tri_inner; tri_outer] = Ret (defective_result "Cut" (0, 0) (6, 6)).
Proof. vm_compute. reflexivity. Qed.

Lemma tri_registered :
  Polygon.reaches_scan [tri_inner; tri_outer] tri_outer tri_inner (6, 6).
Proof.
  split; [simpl; lia|]. split; [vm_compute; reflexivity|].
  exists (6, 6), (6, 6). repeat split; vm_compute; reflexivity.
Qed.

Lemma tri_outer_exceeds : exceeds tri_outer (6, 6).
Proof. eexists. split; vm_compute; reflexivity. Qed.

Lemma tri_inner_exceeds : exceeds tri_inner (6, 6).
Proof. eexists. split; vm_compute; reflexivity. Qed.

Lemma tri_inner_alone :
  analyze_boundary (6, 6) tri_inner "Inner"
  = Ret (Some (defective_result "Flash" (4, 4) (6, 6))).
Proof. vm_compute. reflexivity. Qed.

(** A square around a triangle: only the inner boundary shows a jump. *)
Lemma inner_defect_run :
  Polygon.inspect [sq_outer; tri_mid] = Ret (defective_result "Flash" (6, 6) (10, 10)).
Proof. vm_compute. reflexivity. Qed.

(** Two concentric squares: no jump on either boundary. *)
Lemma good_run : Polygon.inspect [sq_inner; sq_outer] = Ret good_result.
Proof. vm_compute. reflexivity. Qed.

(** The kite around a small square: the location is the point after the
    largest jump, (20, 15) at position 3, while the radius that decides the
    type is that of (11, 20) at position 2. *)
Lemma kite_run :
  Polygon.inspect [sq_small; kite] = Ret (defective_result "Flash" (20, 15) (19, 20)) /\
  np_argmax (diffs kite (19, 20)) = Ret 3%nat /\
  np_argmax (deviations kite (19, 20)) = Ret 2%nat.
Proof. repeat split; vm_compute; reflexivity. Qed.

(** Of two contours of equal area the one traced first is the outer one. *)
Lemma tie_keeps_tracer_order :
  select Polygon.contourArea [sq_inner; sq_shift; sq_outer] = [sq_shift; sq_outer] /\
  select Polygon.contourArea [sq_inner; sq_outer; sq_shift] = [sq_outer; sq_shift].
Proof. split; vm_compute; reflexivity. Qed.

(** C1, the claim as stated fails: on the two triangles the result is Defective
    with center (6, 6), while the midpoint of the two centroids, (6.67, 6.67),
    has (7, 7) as nearest integer point. *)
Lemma center_not_rounded_midpoint :
  Polygon.inspect [tri_inner; tri_outer] = Ret (defective_result "Cut" (0, 0) (6, 6)) /\
  select Polygon.contourArea [tri_inner; tri_outer] = [tri_outer; tri_inner] /\
  rounded_midpoint (Polygon.moments tri_outer) (Polygon.moments tri_inner) (7, 7) /\
  ~ rounded_midpoint (Polygon.moments tri_outer) (Polygon.moments tri_inner) (6, 6) /\
  ~ center_is_rounded_midpoint (fun img => img) (fun img => img)
      Polygon.contourArea Polygon.moments [tri_inner; tri_outer].
Proof.
  split; [exact tri_run|]. split; [vm_compute; reflexivity|].
  split; [split; vm_compute; discriminate|].
  split.
  - intros [Hx _]. vm_compute in Hx. apply Hx. reflexivity.
  - intros H.
    destruct (H (defective_result "Cut" (0, 0) (6, 6)) tri_run eq_refl)
      as (outer & inner & center & Hsel & Hc & Hx & _).
    vm_compute in Hsel. injection Hsel as <- <-.
    vm_compute in Hc. injection Hc as <-.
    vm_compute in Hx. apply Hx. reflexivity.
Qed.

Lemma center_truncated_midpoint_witness :
  Polygon.inspect [tri_inner; tri_outer] = Ret (defective_result "Cut" (0, 0) (6, 6)) /\
  exists outer inner c_outer c_inner center,
    select Polygon.contourArea [tri_inner; tri_outer] = [outer; inner] /\
    c_outer = truncated_centroid Polygon.moments outer /\
    c_inner = truncated_centroid Polygon.moments inner /\
    center_of c_outer c_inner = Ret center /\
    defective_result "Cut" (0, 0) (6, 6) !! "center" = Some (VTuple center) /\
    (- 2 ^ 53 < c_outer.1 + c_inner.1 < 2 ^ 53 ->
       center.1 = Z.quot (c_outer.1 + c_inner.1) 2) /\
    (- 2 ^ 53 < c_outer.2 + c_inner.2 < 2 ^ 53 ->
       center.2 = Z.quot (c_outer.2 + c_inner.2) 2).
Proof.
  split; [exact tri_run|].
  exact (center_truncated_midpoint (fun img => img) (fun img => img)
           Polygon.contourArea Polygon.moments [tri_inner; tri_outer]
           (defective_result "Cut" (0, 0) (6, 6)) tri_run eq_refl).
Defined.

Lemma outer_boundary_first_witness :
  Polygon.reaches_scan [tri_inner; tri_outer] tri_outer tri_inner (6, 6) /\
  exceeds tri_outer (6, 6) /\ exceeds tri_inner (6, 6) /\
  exists i location dev,
    np_argmax (diffs tri_outer (6, 6)) = Ret i /\
    tri_outer !! i = Some location /\
    dev_radius tri_outer (6, 6) = Ret dev /\
    Polygon.inspect [tri_inner; tri_outer] =
      Ret (defective_result (classify "Outer" dev (avg_radius tri_outer (6, 6)))
             location (6, 6)) /\
    forall other : Contour,
      scan_boundaries (6, 6) [(tri_outer, "Outer"%string); (other, "Inner"%string)] =
      Ret (defective_result (classify "Outer" dev (avg_radius tri_outer (6, 6)))
             location (6, 6)).
Proof.
  split; [exact tri_registered|]. split; [exact tri_outer_exceeds|].
  split; [exact tri_inner_exceeds|].
  exact (outer_boundary_first (fun img => img) (fun img => img)
           Polygon.contourArea Polygon.moments [tri_inner; tri_outer]
           tri_outer tri_inner (6, 6)
           tri_registered tri_outer_exceeds tri_inner_exceeds).
Defined.

Lemma location_at_jump_index_witness :
  Polygon.inspect [tri_inner; tri_outer] = Ret (defective_result "Cut" (0, 0) (6, 6)) /\
  exists outer inner center contour jump_index location,
    Polygon.reaches_scan [tri_inner; tri_outer] outer inner center /\
    (contour = outer \/ contour = inner) /\
    np_argmax (diffs contour center) = Ret jump_index /\
    contour !! jump_index = Some location /\
    defective_result "Cut" (0, 0) (6, 6) !! "location" = Some (VTuple location).
Proof.
  split; [exact tri_run|].
  exact (proj1 (location_at_jump_index (fun img => img) (fun img => img)
                  Polygon.contourArea Polygon.moments)
           [tri_inner; tri_outer] (defective_result "Cut" (0, 0) (6, 6))
           tri_run eq_refl).
Defined.

Lemma segmentation_failed_witness :
  (length [sq_inner] < 2)%nat /\
  Polygon.inspect [sq_inner] = Ret (error_result "Segmentation Failed").
Proof.
  split; [simpl; lia|].
  apply (segmentation_failed (fun img => img) (fun img => img)
           Polygon.contourArea Polygon.moments [sq_inner]).
  simpl. lia.
Defined.

Lemma zero_area_error_witness :
  select Polygon.contourArea [segment; sq_outer] = [sq_outer; segment] /\
  (m00 (Polygon.moments segment) =? 0)%float = true /\
  Polygon.inspect [segment; sq_outer] = Ret (error_result "Could not calculate moments").
Proof.
  split; [vm_compute; reflexivity|]. split; [vm_compute; reflexivity|].
  apply (zero_area_error (fun img => img) (fun img => img)
           Polygon.contourArea Polygon.moments [segment; sq_outer] sq_outer segment).
  - simpl. lia.
  - vm_compute. reflexivity.
  - right. vm_compute. reflexivity.
  - intros _. exists (10, 10). vm_compute. reflexivity.
Defined.

Lemma location_center_iff_defective_witness :
  Polygon.inspect [sq_inner; sq_outer] = Ret good_result /\
  (populated good_result "location" <->
     good_result !! "status" = Some (VStr "Defective")) /\
  (populated good_result "center" <->
     good_result !! "status" = Some (VStr "Defective")).
Proof.
  split; [exact good_run|].
  exact (location_center_iff_defective (fun img => img) (fun img => img)
           Polygon.contourArea Polygon.moments [sq_inner; sq_outer] good_result good_run).
Defined.

Lemma two_largest_selected_witness :
  Forall (fun c => is_nan (Polygon.contourArea c) = false) [sq_inner; sq_outer; sq_shift] /\
  exists i j outer inner,
    select Polygon.contourArea [sq_inner; sq_outer; sq_shift] = [outer; inner] /\
    largest_except Polygon.contourArea [sq_inner; sq_outer; sq_shift] None i outer /\
    largest_except Polygon.contourArea [sq_inner; sq_outer; sq_shift] (Some i) j inner /\
    (Polygon.contourArea inner <=? Polygon.contourArea outer)%float = true /\
    ((Polygon.contourArea outer <=? Polygon.contourArea inner)%float = true ->
     (i < j)%nat).
Proof.
  assert (H : Forall (fun c => is_nan (Polygon.contourArea c) = false)
                [sq_inner; sq_outer; sq_shift]).
  { repeat constructor; vm_compute; reflexivity. }
  split; [exact H|].
  apply (two_largest_selected Polygon.contourArea [sq_inner; sq_outer; sq_shift]).
  - simpl. lia.
  - exact H.
Defined.

Lemma ties_take_first_index_witness :
  Polygon.reaches_scan [tri_inner; tri_outer] tri_outer tri_inner (6, 6) /\
  Polygon.inspect [tri_inner; tri_outer] = Ret (defective_result "Cut" (0, 0) (6, 6)) /\
  exists contour name jump_index location deviation_index dev,
    ((contour = tri_outer /\ name = "Outer"%string) \/
     (contour = tri_inner /\ name = "Inner"%string)) /\
    first_max (diffs contour (6, 6)) jump_index /\
    contour !! jump_index = Some location /\
    defective_result "Cut" (0, 0) (6, 6) !! "location" = Some (VTuple location) /\
    first_max (deviations contour (6, 6)) deviation_index /\
    radii contour (6, 6) !! deviation_index = Some dev /\
    defective_result "Cut" (0, 0) (6, 6) !! "defect_type"
    = Some (VStr (classify name dev (avg_radius contour (6, 6)))).
Proof.
  split; [exact tri_registered|]. split; [exact tri_run|].
  apply (ties_take_first_index (fun img => img) (fun img => img)
           Polygon.contourArea Polygon.moments [tri_inner; tri_outer]
           tri_outer tri_inner (6, 6) (defective_result "Cut" (0, 0) (6, 6))
           tri_registered tri_run eq_refl);
    apply no_nan_forallb; vm_compute; reflexivity.
Defined.

(** ** Further facts on the radial profile *)
Module ProfileFacts.
Import FloatOrder NumpyFacts ScanFacts.

Lemma np_roll1_snoc {A} (l : list A) x : np_roll1 (l ++ [x]) = x :: l.
Proof. unfold np_roll1. rewrite rev_app_distr. simpl. now rewrite rev_involutive. Qed.

Lemma np_roll1_lookup_S {A} (a : list A) i x :
  a !! i = Some x -> (S i < length a)%nat -> np_roll1 a !! S i = Some x.
Proof.
  destruct a as [|y a'] using rev_ind; [discriminate|]. clear IHa'.
  rewrite np_roll1_snoc, length_app. simpl. intros H Hlt.
  rewrite lookup_app_l in H by lia. exact H.
Qed.

Lemma np_roll1_lookup_0 {A} (a : list A) : np_roll1 a !! 0%nat = last a.
Proof.
  destruct a as [|y a'] using rev_ind; [reflexivity|]. clear IHa'.
  now rewrite np_roll1_snoc, last_snoc.
Qed.

Lemma is_finite_spec x :
  is_finite x = true ->
  (exists s, Prim2SF x = S754_zero s) \/ (exists s m e, Prim2SF x = S754_finite s m e).
Proof.
  unfold is_finite. intros H. apply negb_true_iff, orb_false_elim in H as [Hn Hi].
  apply not_nan_spec in Hn. unfold is_infinity in Hi.
  rewrite FloatAxioms.eqb_spec, abs_spec in Hi.
  destruct (Prim2SF x) as [s|s| |s m e]; eauto; [|congruence].
  discriminate.
Qed.

Lemma sub_diag_finite x : is_finite x = true -> (x - x)%float = 0%float.
Proof.
  intros H. apply Prim2SF_inj. rewrite sub_spec.
  destruct (is_finite_spec x H) as [[s ->]|(s & m & e & ->)].
  - destruct s; reflexivity.
  - unfold SF64sub, SFsub. rewrite Z.sub_diag. reflexivity.
Qed.

Lemma diffs_of_constant n r :
  is_finite r = true -> diffs_of (replicate n r) = replicate n 0%float.
Proof.
  intros H. apply list_eq. intros i. unfold diffs_of.
  rewrite lookup_zip_with. destruct (decide (i < n)%nat) as [Hi|Hi].
  - rewrite !lookup_replicate_2 by assumption. simpl.
    assert (Hr : np_roll1 (replicate n r) !! i = Some r).
    { assert (Hl : (i < length (np_roll1 (replicate n r)))%nat).
      { rewrite length_np_roll1, length_replicate. exact Hi. }
      destruct (lookup_lt_is_Some_2 _ _ Hl) as [y Hy]. rewrite Hy. f_equal.
      apply list_elem_of_lookup_2 in Hy.
      assert (Hperm : np_roll1 (replicate n r) ≡ₚ replicate n r).
      { generalize (replicate n r). intros a.
        destruct a as [|z a'] using rev_ind; [reflexivity|].
        rewrite np_roll1_snoc. apply Permutation_cons_append. }
      rewrite Hperm in Hy. now apply elem_of_replicate in Hy as [-> _]. }
    rewrite Hr. simpl. now rewrite sub_diag_finite.
  - rewrite (proj1 (lookup_replicate_None n r i)) by lia.
    rewrite (proj1 (lookup_replicate_None n 0%float i)) by lia. reflexivity.
Qed.

Lemma np_max_zeros n : np_max (replicate (S n) 0%float) = Ret 0%float.
Proof.
  simpl. f_equal. induction n as [|n IH]; simpl; [reflexivity|exact IH].
Qed.

Lemma np_max_elem a m : np_max a = Ret m -> m ∈ a.
Proof.
  destruct a as [|x a]; simpl; [discriminate|]. intros [= <-].
  revert x. induction a as [|y a IH]; intros x; simpl; [left|].
  unfold np_maximum at 2.
  destruct ((y <=? x)%float || is_nan x).
  - specialize (IH x). apply elem_of_cons in IH as [->|IH]; [left|right; now right].
  - right. apply IH.
Qed.
End ProfileFacts.


(** ** What a run returns or raises *)
Section SortOrder.
Import FloatOrder.
Context {A : Type} (key : A -> float).

Lemma insert_desc_descending x l :
  is_nan (key x) = false ->
  Forall (fun y => is_nan (key y) = false) l ->
  StronglySorted (fun a b => (key b <=? key a)%float = true) l ->
  StronglySorted (fun a b => (key b <=? key a)%float = true) (insert_desc key x l).
Proof.
  intros Hx. induction l as [|y l IH]; intros Hnan Hs; simpl.
  - repeat constructor.
  - inversion Hnan as [|? ? Hy Hnan']; subst.
    inversion Hs as [|? ? Hs' Hyl]; subst.
    destruct (key x <? key y)%float eqn:E.
    + constructor; [now apply IH|].
      rewrite insert_desc_perm. constructor; [now apply ltb_leb|assumption].
    + assert (Hyx : (key y <=? key x)%float = true).
      { rewrite ltb_negb_leb in E by assumption.
        now destruct (key y <=? key x)%float. }
      constructor; [assumption|]. constructor; [assumption|].
      rewrite Forall_forall in Hyl |- *. intros e He.
      eapply leb_trans; eauto.
Qed.

Lemma sorted_desc_descending l :
  Forall (fun y => is_nan (key y) = false) l ->
  StronglySorted (fun a b => (key b <=? key a)%float = true) (sorted_desc key l).
Proof.
  induction l as [|x l IH]; intros Hnan; simpl; [constructor|].
  inversion Hnan as [|? ? Hx Hnan']; subst.
  apply insert_desc_descending; [assumption| |now apply IH].
  now rewrite sorted_desc_perm.
Qed.
End SortOrder.

Section Outcomes.
Import FloatOrder NumpyFacts ScanFacts Rounding ProfileFacts.
Context {Image : Type}.
Variable cv2_threshold : Image -> Image.
Variable cv2_findContours : Image -> list Contour.
Variable cv2_contourArea : Contour -> float.
Variable cv2_moments : Contour -> Moments.

Local Abbreviation run :=
  (find_and_analyze_ring cv2_threshold cv2_findContours cv2_contourArea cv2_moments).
Local Abbreviation reg :=
  (registered cv2_threshold cv2_findContours cv2_contourArea cv2_moments).
Local Abbreviation traced img := (cv2_findContours (cv2_threshold img)).
Local Abbreviation area := cv2_contourArea.

Lemma good_not_defective ty p c : good_result <> defective_result ty p c.
Proof.
  intros E. apply (f_equal (fun d : dict => d !! "status")) in E.
  rewrite good_status, defective_status in E. discriminate.
Qed.

(** X1: once the scan is reached, the result is the Good result exactly when
    neither boundary has a largest jump above the threshold. *)
Theorem good_iff_no_jump img outer inner center :
  reg img outer inner center ->
  (run img = Ret good_result <-> within outer center /\ within inner center).
Proof.
  intros Hreg. split.
  - rewrite (run_registered _ _ _ _ _ _ _ _ Hreg). intros H.
    destruct (scan_two_inv _ _ _ _ H) as [[_ Ha]|[(_ & _ & Ha)|(Ho & Hi & _)]]; [| |auto];
      destruct (analyze_boundary_shape _ _ _ _ Ha) as (ty & p & E);
      now apply good_not_defective in E.
  - intros [Ho Hi]. now apply (both_within_good _ _ _ _ img outer inner center).
Qed.

Lemma select_subset contours c :
  c ∈ select area contours -> c ∈ contours.
Proof.
  unfold select. intros H. apply list_elem_of_lookup in H as [i H].
  apply lookup_take_Some in H as [H _]. apply list_elem_of_lookup_2 in H.
  now rewrite sorted_desc_perm in H.
Qed.

Lemma analyze_boundary_nonempty center c name :
  c <> [] -> exists r, analyze_boundary center c name = Ret r.
Proof.
  intros Hne.
  assert (Hd : diffs c center <> []).
  { intros E. apply (f_equal length) in E. rewrite length_diffs in E.
    destruct c; [congruence|discriminate]. }
  destruct (diffs c center) as [|x a] eqn:Ed; [congruence|].
  destruct (JUMP_THRESHOLD <? fold_left np_maximum a x)%float eqn:Et.
  - destruct (analyze_boundary_exceeds center c name) as (? & ? & ? & ? & H).
    { eexists. unfold max_jump. rewrite Ed. split; [reflexivity|exact Et]. }
    eexists. apply H.
  - exists None. apply analyze_boundary_within.
    eexists. unfold max_jump. rewrite Ed. split; [reflexivity|exact Et].
Qed.

Lemma analyze_boundary_raise center c name e :
  analyze_boundary center c name = Raise e -> c = [] /\ e = ValueError.
Proof.
  intros H. destruct c as [|p c].
  - split; [reflexivity|]. vm_compute in H. congruence.
  - destruct (analyze_boundary_nonempty center (p :: c) name) as [r Hr]; [discriminate|].
    congruence.
Qed.

Lemma scan_raise center bs e :
  scan_boundaries center bs = Raise e -> e = ValueError /\ exists n, ([], n) ∈ bs.
Proof.
  induction bs as [|[c n] bs IH]; simpl; [discriminate|].
  destruct (analyze_boundary center c n) as [[d|]|e'] eqn:Ea; simpl.
  - discriminate.
  - intros H. destruct (IH H) as [-> [n' Hn]]. split; [reflexivity|].
    exists n'. now right.
  - intros [= <-]. apply analyze_boundary_raise in Ea as [-> ->].
    split; [reflexivity|]. exists n. now left.
Qed.

Lemma py_int_raise f e : py_int f = Raise e -> e = ValueError \/ e = OverflowError.
Proof. unfold py_int. destruct (Prim2SF f); intros [= <-]; auto. Qed.

Lemma center_of_raise a b e :
  center_of a b = Raise e -> e = ValueError \/ e = OverflowError.
Proof.
  unfold center_of, py_truediv_int_2.
  repeat match goal with
  | |- context [if ?c then _ else _] => destruct c; simpl
  | |- context [py_int ?f] =>
      let E := fresh "E" in destruct (py_int f) eqn:E; simpl;
      [|apply py_int_raise in E]
  end; intros [= <-]; auto.
Qed.

Lemma centroid_raise c e :
  centroid cv2_moments c = Raise e ->
  e = ZeroDivisionError \/ e = ValueError \/ e = OverflowError.
Proof.
  unfold centroid, py_truediv. cbv zeta.
  destruct (m00 (cv2_moments c) =? 0)%float; simpl; [intros [= <-]; auto|].
  destruct (py_int (m10 (cv2_moments c) / m00 (cv2_moments c))) eqn:E1; simpl.
  - destruct (py_int (m01 (cv2_moments c) / m00 (cv2_moments c))) eqn:E2; simpl.
    + discriminate.
    + intros [= <-]. apply py_int_raise in E2. tauto.
  - intros [= <-]. apply py_int_raise in E1. tauto.
Qed.

(** The exceptions of the model that can leave the function, and where. *)
Lemma raise_cases img e :
  run img = Raise e ->
  (e = ValueError \/ e = OverflowError) /\
  (2 <= length (traced img))%nat.
Proof.
  intros H.
  destruct (Nat.lt_ge_cases (length (traced img)) 2) as [Hlt|Hge].
  { rewrite run_short in H by assumption. discriminate. }
  split; [|exact Hge].
  destruct (select_two cv2_contourArea _ Hge) as (outer & inner & Hsel).
  rewrite (run_selected _ _ _ _ img outer inner Hge Hsel) in H.
  destruct (centroid cv2_moments outer) as [co|e1] eqn:Hco; simpl in H.
  - destruct (centroid cv2_moments inner) as [ci|e2] eqn:Hci; simpl in H.
    + destruct (center_of co ci) as [c|e3] eqn:Hc; simpl in H.
      * destruct (analyze_boundary c outer "Outer") as [[d|]|e4] eqn:Ho; simpl in H.
        -- discriminate.
        -- destruct (analyze_boundary c inner "Inner") as [[d|]|e5] eqn:Hi;
             simpl in H; try discriminate.
           injection H as <-. apply analyze_boundary_raise in Hi. tauto.
        -- injection H as <-. apply analyze_boundary_raise in Ho. tauto.
      * injection H as <-. now apply center_of_raise in Hc.
    + apply centroid_raise in Hci as [-> | [-> | ->]]; simpl in H; try discriminate;
        injection H as <-; auto.
  - apply centroid_raise in Hco as [-> | [-> | ->]]; simpl in H; try discriminate;
      injection H as <-; auto.
Qed.

(** X2: the function never lets a ZeroDivisionError or an IndexError escape.
    The division by a zero [m00] happens inside the [try] block and is caught,
    the later division is by the constant 2, and the positions taken from
    [np.argmax] always lie within the contour and the radii. *)
Theorem zero_division_and_index_errors_contained img :
  find_and_analyze_ring cv2_threshold cv2_findContours cv2_contourArea
    cv2_moments img <> Raise ZeroDivisionError /\
  find_and_analyze_ring cv2_threshold cv2_findContours cv2_contourArea
    cv2_moments img <> Raise IndexError.
Proof.
  split; intros H; destruct (raise_cases img _ H) as [[E|E] _]; discriminate.
Qed.

(** X3: no exception escapes when every traced contour has at least one point
    and, unless its [m00] is zero, a centroid whose integer coordinates are
    below 2^52 in magnitude: the function then returns a result. *)
Theorem returns_on_well_formed_contours img :
  (forall c, c ∈ traced img ->
     c <> [] /\
     ((m00 (cv2_moments c) =? 0)%float = true \/
      exists p, centroid cv2_moments c = Ret p /\
                - 2 ^ 52 < p.1 < 2 ^ 52 /\ - 2 ^ 52 < p.2 < 2 ^ 52)) ->
  exists d, run img = Ret d.
Proof.
  intros Hwf.
  destruct (Nat.lt_ge_cases (length (traced img)) 2) as [Hlt|Hge].
  { rewrite run_short by assumption. eauto. }
  destruct (select_two cv2_contourArea _ Hge) as (outer & inner & Hsel).
  rewrite (run_selected _ _ _ _ img outer inner Hge Hsel).
  assert (Ho : outer ∈ traced img).
  { apply select_subset. rewrite Hsel. left. }
  assert (Hi : inner ∈ traced img).
  { apply select_subset. rewrite Hsel. right. left. }
  destruct (Hwf _ Ho) as [Hone [Hz|(co & Hco & Hx & Hy)]].
  { rewrite (centroid_zero_area _ _ Hz). simpl. eauto. }
  rewrite Hco. simpl.
  destruct (Hwf _ Hi) as [Hine [Hz|(ci & Hci & Hx' & Hy')]].
  { rewrite (centroid_zero_area _ _ Hz). simpl. eauto. }
  rewrite Hci. simpl.
  rewrite center_of_quot by lia. simpl.
  destruct (analyze_boundary_nonempty
              (Z.quot (co.1 + ci.1) 2, Z.quot (co.2 + ci.2) 2) outer "Outer" Hone)
    as [[d|] Ha]; rewrite Ha; simpl; [eauto|].
  destruct (analyze_boundary_nonempty
              (Z.quot (co.1 + ci.1) 2, Z.quot (co.2 + ci.2) 2) inner "Inner" Hine)
    as [[d|] Hb]; rewrite Hb; simpl; eauto.
Qed.

(** X4: every returned result is one of the two Error results, the Good
    result, or a Defective result whose defect type is Cut or Flash (never the
    initial "Unknown") and whose location is a point of a traced contour. *)
Theorem result_shapes img d :
  run img = Ret d ->
  d = error_result "Segmentation Failed" \/
  d = error_result "Could not calculate moments" \/
  d = good_result \/
  exists ty location center contour,
    d = defective_result ty location center /\
    (ty = "Cut"%string \/ ty = "Flash"%string) /\
    location ∈ contour /\ contour ∈ traced img.
Proof.
  intros H.
  destruct (run_inv _ _ _ _ img d H) as [[_ ->]|[[_ ->]|(o & i & c & Hreg & Hs)]]; auto.
  do 2 right.
  assert (Hsel : o ∈ traced img /\ i ∈ traced img).
  { destruct Hreg as (_ & Hsel & _).
    split; apply select_subset; rewrite Hsel; [left|right; left]. }
  assert (Hty : forall contour name, (name = "Outer" \/ name = "Inner")%string ->
            contour ∈ traced img ->
            analyze_boundary c contour name = Ret (Some d) ->
            exists ty location center contour,
              d = defective_result ty location center /\
              (ty = "Cut"%string \/ ty = "Flash"%string) /\
              location ∈ contour /\ contour ∈ traced img).
  { intros contour name Hname Hin Ha.
    destruct (analyze_boundary_exceeds c contour name (analyze_boundary_Some _ _ _ _ Ha))
      as (j & p & k & r & _ & Hp & _ & _ & _ & Ha').
    rewrite Ha in Ha'. injection Ha' as ->.
    exists (classify name r (avg_radius contour c)), p, c, contour.
    split; [reflexivity|]. split.
    - unfold classify. destruct Hname as [-> | ->]; simpl;
        destruct (r <? avg_radius contour c)%float; auto.
    - split; [eapply list_elem_of_lookup_2; eauto|assumption]. }
  destruct (scan_two_inv _ _ _ _ Hs) as [[_ Ha]|[(_ & _ & Ha)|(_ & _ & ->)]].
  - right. apply (Hty o "Outer"%string); tauto.
  - right. apply (Hty i "Inner"%string); tauto.
  - now left.
Qed.
End Outcomes.


Section Profile.
Import FloatOrder NumpyFacts ScanFacts Rounding ProfileFacts.

(** X5: the jumps are the circular first differences of the radii: the jump at
    position 0 compares the first radius with the last one, the jump at every
    later position compares the radius with the one before it, and there are as
    many jumps as radii. *)
Theorem diffs_are_circular (r : list float) :
  (forall a b, r !! 0%nat = Some a -> last r = Some b ->
     diffs_of r !! 0%nat = Some (abs (a - b)%float)) /\
  (forall i a b, r !! i = Some a -> r !! S i = Some b ->
     diffs_of r !! S i = Some (abs (b - a)%float)) /\
  length (diffs_of r) = length r.
Proof.
  unfold diffs_of. split; [|split].
  - intros a b Ha Hb. rewrite lookup_zip_with, Ha, np_roll1_lookup_0, Hb. reflexivity.
  - intros i a b Ha Hb. rewrite lookup_zip_with, Hb.
    rewrite (np_roll1_lookup_S r i a Ha); [reflexivity|].
    eapply lookup_lt_Some; eauto.
  - apply length_diffs_of.
Qed.

Lemma constant_profile_within contour center r :
  contour <> [] -> is_finite r = true ->
  Forall (fun x => x = r) (radii contour center) ->
  max_jump contour center = Ret 0%float /\ within contour center.
Proof.
  intros Hne Hfin Hall.
  assert (Hrep : radii contour center = replicate (length contour) r).
  { symmetry. apply replicate_as_Forall. split; [apply length_radii|].
    eapply Forall_impl; [exact Hall|]. simpl. auto. }
  assert (Hmj : max_jump contour center = Ret 0%float).
  { unfold max_jump, diffs. rewrite Hrep, diffs_of_constant by assumption.
    destruct contour as [|p c]; [congruence|]. apply np_max_zeros. }
  split; [exact Hmj|]. exists 0%float. split; [exact Hmj|reflexivity].
Qed.

Lemma jump_at_argmax_exceeds contour center i :
  exceeds contour center -> no_nan (diffs contour center) ->
  np_argmax (diffs contour center) = Ret i ->
  exists x, diffs contour center !! i = Some x /\ (JUMP_THRESHOLD <? x)%float = true.
Proof.
  intros (mj & Hmj & Hgt) Hnan Hi.
  destruct (np_argmax_first_max _ _ Hnan Hi) as (x & Hx & Hle & _).
  exists x. split; [exact Hx|].
  apply np_max_elem in Hmj. apply list_elem_of_lookup in Hmj as [j Hj].
  eapply ltb_leb_trans; eauto.
Qed.

Lemma lookup_map {A B} (f : A -> B) (l : list A) i :
  map f l !! i = f <$> l !! i.
Proof.
  revert i. induction l as [|x l IH]; intros [|i]; simpl; try reflexivity. apply IH.
Qed.

Lemma wrap64_small n : - 2 ^ 63 <= n < 2 ^ 63 -> wrap64 n = n.
Proof. intros H. unfold wrap64. rewrite Z.mod_small by lia. lia. Qed.

(** X10: for a contour point less than 2^31 away from the center in each
    coordinate the int64 arithmetic does not wrap around: the radius is the
    square root of the float nearest to dx^2 + dy^2. *)
Theorem radius_without_wraparound (contour : Contour) center i p :
  contour !! i = Some p ->
  - 2 ^ 31 < p.1 - center.1 < 2 ^ 31 ->
  - 2 ^ 31 < p.2 - center.2 < 2 ^ 31 ->
  radii contour center !! i =
    Some (PrimFloat.sqrt
            (float_of_int ((p.1 - center.1) ^ 2 + (p.2 - center.2) ^ 2))).
Proof.
  intros Hp Hx Hy. unfold radii. rewrite lookup_map.
  unfold Contour, Point in *. rewrite Hp. simpl.
  set (dx := p.1 - center.1) in *. set (dy := p.2 - center.2) in *.
  assert (Hdx : 0 <= dx * dx < 2 ^ 62) by nia.
  assert (Hdy : 0 <= dy * dy < 2 ^ 62) by nia.
  rewrite (wrap64_small dx), (wrap64_small dy) by lia.
  rewrite (wrap64_small (dx * dx)), (wrap64_small (dy * dy)) by lia.
  rewrite wrap64_small by lia.
  do 3 f_equal. lia.
Qed.

(** X8: for centroids with coordinates below 2^52 in magnitude the
    registration center is computed without an exception, each of its
    coordinates lies between the corresponding coordinates of the two
    centroids, and it is the common centroid when the two coincide. *)
Theorem center_between_centroids c_outer c_inner :
  - 2 ^ 52 < c_outer.1 < 2 ^ 52 -> - 2 ^ 52 < c_outer.2 < 2 ^ 52 ->
  - 2 ^ 52 < c_inner.1 < 2 ^ 52 -> - 2 ^ 52 < c_inner.2 < 2 ^ 52 ->
  exists center,
    center_of c_outer c_inner = Ret center /\
    Z.min c_outer.1 c_inner.1 <= center.1 <= Z.max c_outer.1 c_inner.1 /\
    Z.min c_outer.2 c_inner.2 <= center.2 <= Z.max c_outer.2 c_inner.2 /\
    (c_outer = c_inner -> center = c_outer).
Proof.
  intros Hx Hy Hx' Hy'.
  eexists. split; [apply center_of_quot; lia|]. simpl.
  pose proof (Z.quot_rem' (c_outer.1 + c_inner.1) 2) as E1.
  pose proof (Z.quot_rem' (c_outer.2 + c_inner.2) 2) as E2.
  assert (R1 : - 1 <= Z.rem (c_outer.1 + c_inner.1) 2 <= 1).
  { pose proof (Z.rem_bound_abs (c_outer.1 + c_inner.1) 2). lia. }
  assert (R2 : - 1 <= Z.rem (c_outer.2 + c_inner.2) 2 <= 1).
  { pose proof (Z.rem_bound_abs (c_outer.2 + c_inner.2) 2). lia. }
  split; [lia|]. split; [lia|].
  intros <-. destruct c_outer as [x y]. simpl in *. f_equal; lia.
Qed.
End Profile.

Section Flagging.
Import FloatOrder NumpyFacts ScanFacts Rounding ProfileFacts.
Context {Image : Type}.
Variable cv2_threshold : Image -> Image.
Variable cv2_findContours : Image -> list Contour.
Variable cv2_contourArea : Contour -> float.
Variable cv2_moments : Contour -> Moments.

Local Abbreviation run :=
  (find_and_analyze_ring cv2_threshold cv2_findContours cv2_contourArea cv2_moments).
Local Abbreviation reg :=
  (registered cv2_threshold cv2_findContours cv2_contourArea cv2_moments).
Local Abbreviation traced img := (cv2_findContours (cv2_threshold img)).
Local Abbreviation area := cv2_contourArea.

(** X6: when on each of the two boundaries all points are at one finite radius
    from the center (concentric circles or squares seen from their common
    center), both largest jumps are 0 and the result is Good. *)
Theorem constant_profiles_are_good img outer inner center r_outer r_inner :
  reg img outer inner center ->
  outer <> [] -> inner <> [] ->
  is_finite r_outer = true -> is_finite r_inner = true ->
  Forall (fun x => x = r_outer) (radii outer center) ->
  Forall (fun x => x = r_inner) (radii inner center) ->
  max_jump outer center = Ret 0%float /\
  max_jump inner center = Ret 0%float /\
  run img = Ret good_result.
Proof.
  intros Hreg Ho Hi Hfo Hfi Hao Hai.
  destruct (constant_profile_within outer center r_outer Ho Hfo Hao) as [Hmo Hwo].
  destruct (constant_profile_within inner center r_inner Hi Hfi Hai) as [Hmi Hwi].
  split; [exact Hmo|]. split; [exact Hmi|].
  rewrite (run_registered _ _ _ _ _ _ _ _ Hreg).
  now rewrite (scan_cons_within _ _ _ _ Hwo), (scan_cons_within _ _ _ _ Hwi).
Qed.

(** X9: in a Defective result (on profiles without NaN) the jump at the
    reported location is itself above the threshold 2.5. *)
Theorem reported_jump_exceeds_threshold img outer inner center d :
  reg img outer inner center ->
  run img = Ret d -> d !! "status" = Some (VStr "Defective") ->
  no_nan (diffs outer center) -> no_nan (diffs inner center) ->
  exists contour i location jump,
    (contour = outer \/ contour = inner) /\
    contour !! i = Some location /\
    d !! "location" = Some (VTuple location) /\
    diffs contour center !! i = Some jump /\
    (2.5 <? jump)%float = true.
Proof.
  intros Hreg Hrun Hst Hno Hni.
  rewrite (run_registered _ _ _ _ _ _ _ _ Hreg) in Hrun.
  assert (Hcase : exists contour name,
             (contour = outer \/ contour = inner) /\
             exceeds contour center /\
             analyze_boundary center contour name = Ret (Some d)).
  { destruct (scan_two_inv _ _ _ _ Hrun) as [[Ho Ha]|[(_ & Ho & Ha)|(_ & _ & ->)]].
    - exists outer, "Outer"%string. auto.
    - exists inner, "Inner"%string. auto.
    - discriminate. }
  destruct Hcase as (contour & name & Hsel & Hex & Ha).
  destruct (analyze_boundary_exceeds center contour name Hex)
    as (i & p & k & r & Hi & Hp & _ & _ & _ & Ha').
  rewrite Ha in Ha'. injection Ha' as ->.
  assert (Hn : no_nan (diffs contour center)).
  { destruct Hsel as [-> | ->]; assumption. }
  destruct (jump_at_argmax_exceeds contour center i Hex Hn Hi) as (x & Hx & Hgt).
  exists contour, i, p, x.
  split; [exact Hsel|]. split; [exact Hp|].
  split; [apply defective_location|]. split; [exact Hx|exact Hgt].
Qed.
End Flagging.

(** ** The threshold and the classification *)
Module JumpFacts.
Import FloatOrder NumpyFacts ScanFacts ProfileFacts.

Lemma pairwise_sum_short fuel a :
  (length a < 8)%nat -> pairwise_sum fuel a = fold_left PrimFloat.add a 0%float.
Proof.
  intros H. apply Nat.ltb_lt in H. destruct fuel; simpl; now rewrite H.
Qed.

Lemma np_mean_short a :
  (length a < 8)%nat ->
  np_mean a = (fold_left PrimFloat.add a 0 / float_of_int (Z.of_nat (length a)))%float.
Proof. intros H. unfold np_mean. now rewrite pairwise_sum_short. Qed.

Lemma np_roll1_lookup {A} (r : list A) i :
  (i < length r)%nat -> np_roll1 r !! i = r !! circular_pred (length r) i.
Proof.
  intros Hlt. destruct i as [|i]; simpl.
  - rewrite np_roll1_lookup_0, last_lookup. f_equal. lia.
  - assert (Hi : (i < length r)%nat) by lia.
    destruct (lookup_lt_is_Some_2 r i Hi) as [x Hx].
    rewrite Hx. now apply np_roll1_lookup_S.
Qed.

Lemma diffs_of_lookup r i x :
  diffs_of r !! i = Some x <->
  exists a b, r !! i = Some a /\ r !! circular_pred (length r) i = Some b /\
              x = abs (a - b)%float.
Proof.
  unfold diffs_of. rewrite lookup_zip_with_Some. split.
  - intros (a & b & -> & Ha & Hb). exists a, b.
    rewrite <- np_roll1_lookup by (eapply lookup_lt_Some; eauto). auto.
  - intros (a & b & Ha & Hb & ->). exists a, b.
    rewrite np_roll1_lookup by (eapply lookup_lt_Some; eauto). auto.
Qed.

Lemma fold_maximum_upper a : forall x,
  no_nan (x :: a) ->
  let m := fold_left np_maximum a x in
  is_nan m = false /\ (x <=? m)%float = true /\
  forall y, y ∈ a -> (y <=? m)%float = true.
Proof.
  induction a as [|y a IH]; intros x Hn; simpl.
  - apply Forall_cons in Hn as [Hx _]. split; [exact Hx|].
    split; [now apply leb_refl|]. intros y Hy. inversion Hy.
  - apply Forall_cons in Hn as [Hx Hn]. apply Forall_cons in Hn as [Hy Hn].
    assert (Hstep : is_nan (np_maximum x y) = false /\
                    (x <=? np_maximum x y)%float = true /\
                    (y <=? np_maximum x y)%float = true).
    { unfold np_maximum. rewrite Hx, orb_false_r.
      destruct (y <=? x)%float eqn:E.
      - split; [exact Hx|]. split; [now apply leb_refl|exact E].
      - split; [exact Hy|]. split; [|now apply leb_refl].
        destruct (leb_total x y Hx Hy) as [H|H]; [exact H|].
        apply ltb_leb in H. congruence. }
    destruct Hstep as (Hm & Hxm & Hym).
    destruct (IH (np_maximum x y)) as (Hn' & Hle & Hall).
    { apply Forall_cons. split; assumption. }
    split; [exact Hn'|]. split; [eapply leb_trans; eauto|].
    intros z Hz. apply elem_of_cons in Hz as [->|Hz]; [eapply leb_trans; eauto|auto].
Qed.

Lemma np_max_upper a m :
  no_nan a -> np_max a = Ret m -> forall y, y ∈ a -> (y <=? m)%float = true.
Proof.
  destruct a as [|x a]; simpl; [discriminate|]. intros Hn [= <-] y Hy.
  destruct (fold_maximum_upper a x Hn) as (_ & Hx & Hall).
  apply elem_of_cons in Hy as [->|Hy]; auto.
Qed.

Lemma max_jump_largest c center mj :
  max_jump c center = Ret mj -> largest_circular_jump (radii c center) mj.
Proof.
  unfold max_jump, diffs. set (r := radii c center). intros H. split.
  - apply np_max_elem, list_elem_of_lookup in H as [i Hi].
    apply diffs_of_lookup in Hi as (a & b & Ha & Hb & ->). eauto 6.
  - intros Hnan i a b Ha Hb.
    apply (np_max_upper (diffs_of r)); [|exact H|].
    + apply Forall_lookup. intros j x Hx.
      apply diffs_of_lookup in Hx as (a' & b' & Ha' & Hb' & ->). eauto.
    + apply list_elem_of_lookup. exists i. apply diffs_of_lookup. eauto.
Qed.

Lemma scan_exceeds_located center c name rest :
  exceeds c center ->
  exists ty location,
    location ∈ c /\
    scan_boundaries center ((c, name) :: rest)
    = Ret (defective_result ty location center).
Proof.
  intros H.
  destruct (analyze_boundary_exceeds center c name H)
    as (i & p & k & r & _ & Hp & _ & _ & _ & Ha).
  exists (classify name r (avg_radius c center)), p.
  split; [eapply list_elem_of_lookup_2; eauto|]. simpl. now rewrite Ha.
Qed.
End JumpFacts.

Section Threshold.
Import FloatOrder NumpyFacts ScanFacts Rounding ProfileFacts JumpFacts.
Context {Image : Type}.
Variable cv2_threshold : Image -> Image.
Variable cv2_findContours : Image -> list Contour.
Variable cv2_contourArea : Contour -> float.
Variable cv2_moments : Contour -> Moments.

Local Abbreviation run :=
  (find_and_analyze_ring cv2_threshold cv2_findContours cv2_contourArea cv2_moments).
Local Abbreviation reg :=
  (registered cv2_threshold cv2_findContours cv2_contourArea cv2_moments).

(** C2: the boundary that makes the function return is the outer one when its
    largest jump exceeds the threshold, and otherwise the inner one when its
    largest jump does.  On that boundary [avg_radius] is the mean of the radii
    (below 8 points: their sum from left to right, divided by their number;
    numpy sums longer arrays pairwise), and [dev_radius] is the radius at the
    position [np.argmax] finds in the absolute deviations [|radius - avg_radius|]:
    when no deviation is a NaN, no radius deviates more and every radius
    before that position deviates strictly less.  Both positions exist.  The
    defect type returned compares the two: on the outer boundary
    [dev_radius < avg_radius] gives Cut and anything else Flash; on the inner
    boundary [dev_radius < avg_radius] gives Flash and anything else Cut.  The
    result is Defective with that type, the point at the position of the
    largest jump and the center. *)
Theorem classification_by_dev_radius img outer inner center contour name :
  reg img outer inner center ->
  (contour = outer /\ name = "Outer"%string) \/
  (contour = inner /\ name = "Inner"%string /\ within outer center) ->
  exceeds contour center ->
  avg_radius contour center = np_mean (radii contour center) /\
  ((length contour < 8)%nat ->
     avg_radius contour center
     = (fold_left PrimFloat.add (radii contour center) 0
        / float_of_int (Z.of_nat (length contour)))%float) /\
  (exists k dev i location,
     np_argmax (map (fun x => abs (x - avg_radius contour center)%float)
                    (radii contour center)) = Ret k /\
     radii contour center !! k = Some dev /\
     np_argmax (diffs contour center) = Ret i /\
     contour !! i = Some location) /\
  forall k dev i location,
    np_argmax (map (fun x => abs (x - avg_radius contour center)%float)
                   (radii contour center)) = Ret k ->
    radii contour center !! k = Some dev ->
    np_argmax (diffs contour center) = Ret i ->
    contour !! i = Some location ->
    dev_radius contour center = Ret dev /\
    (no_nan (map (fun x => abs (x - avg_radius contour center)%float)
                 (radii contour center)) ->
     (forall j x, radii contour center !! j = Some x ->
        (abs (x - avg_radius contour center)
         <=? abs (dev - avg_radius contour center))%float = true) /\
     (forall j x, (j < k)%nat -> radii contour center !! j = Some x ->
        (abs (x - avg_radius contour center)
         <? abs (dev - avg_radius contour center))%float = true)) /\
    run img =
      Ret (defective_result
             (if String.eqb name "Outer"
              then (if (dev <? avg_radius contour center)%float then "Cut" else "Flash")
              else (if (dev <? avg_radius contour center)%float then "Flash" else "Cut"))
             location center).
Proof.
  intros Hreg Hsel Hex.
  rewrite (run_registered _ _ _ _ _ _ _ _ Hreg).
  destruct (analyze_boundary_exceeds center contour name Hex)
    as (i0 & p0 & k0 & r0 & Hi0 & Hp0 & Hk0 & Hr0 & Hdev & Ha).
  change (deviations contour center)
    with (map (fun x => abs (x - avg_radius contour center)%float)
              (radii contour center)) in Hk0.
  split; [reflexivity|]. split.
  { intros Hlt. unfold avg_radius. rewrite np_mean_short, length_radii;
      [reflexivity|now rewrite length_radii]. }
  split; [exists k0, r0, i0, p0; auto|].
  intros k dev i location Hk Hr Hi Hp.
  assert (k = k0) as -> by congruence. assert (dev = r0) as -> by congruence.
  assert (i = i0) as -> by congruence. assert (location = p0) as -> by congruence.
  split; [exact Hdev|]. split.
  - intros Hnan.
    destruct (np_argmax_first_max _ _ Hnan Hk0) as (x & Hx & Hle & Hlt).
    rewrite lookup_map, Hr0 in Hx. injection Hx as <-. split.
    + intros j y Hy. apply (Hle j). now rewrite lookup_map, Hy.
    + intros j y Hj Hy. apply (Hlt j); [exact Hj|]. now rewrite lookup_map, Hy.
  - destruct Hsel as [[-> ->]|(-> & -> & Hw)].
    + simpl. simpl in Ha. rewrite Ha. reflexivity.
    + rewrite (scan_cons_within _ _ _ _ Hw). simpl. simpl in Ha. rewrite Ha. reflexivity.
Qed.

(** C5: the threshold is 2.5, and the [max_jump] of a boundary is the maximum
    of the circular first differences of its radii.  A boundary whose
    [max_jump] is less than or equal to 2.5 is judged free of defects: the body
    of the loop returns nothing for it, the result of the function is that of
    the scan of the boundaries after it, and it is Good when this holds of both
    boundaries.  A boundary triggers a Defective result exactly when its
    [max_jump] is strictly greater than 2.5: the function returns a Defective
    result located on the outer boundary when the outer [max_jump] is above
    2.5, one located on the inner boundary when only the inner [max_jump] is,
    and it returns a Defective result in no other case. *)
Theorem threshold_decides_result img outer inner center mo mi :
  reg img outer inner center ->
  max_jump outer center = Ret mo ->
  max_jump inner center = Ret mi ->
  JUMP_THRESHOLD = 2.5%float /\
  largest_circular_jump (radii outer center) mo /\
  largest_circular_jump (radii inner center) mi /\
  ((mo <=? 2.5)%float = true ->
     analyze_boundary center outer "Outer" = Ret None /\
     run img = scan_boundaries center [(inner, "Inner"%string)]) /\
  ((mi <=? 2.5)%float = true ->
     analyze_boundary center inner "Inner" = Ret None) /\
  ((mo <=? 2.5)%float = true -> (mi <=? 2.5)%float = true ->
     run img = Ret good_result) /\
  ((2.5 <? mo)%float = true ->
     exists ty location,
       location ∈ outer /\ run img = Ret (defective_result ty location center)) /\
  ((2.5 <? mo)%float = false -> (2.5 <? mi)%float = true ->
     exists ty location,
       location ∈ inner /\ run img = Ret (defective_result ty location center)) /\
  ((exists ty location, run img = Ret (defective_result ty location center)) <->
   (2.5 <? mo)%float = true \/ (2.5 <? mi)%float = true).
Proof.
  intros Hreg Hmo Hmi.
  rewrite (run_registered _ _ _ _ _ _ _ _ Hreg).
  assert (Hwo : (2.5 <? mo)%float = false -> within outer center).
  { intros H. exists mo. auto. }
  assert (Hwi : (2.5 <? mi)%float = false -> within inner center).
  { intros H. exists mi. auto. }
  assert (Heo : (2.5 <? mo)%float = true -> exceeds outer center).
  { intros H. exists mo. auto. }
  assert (Hei : (2.5 <? mi)%float = true -> exceeds inner center).
  { intros H. exists mi. auto. }
  split; [reflexivity|].
  split; [now apply max_jump_largest|].
  split; [now apply max_jump_largest|].
  split; [|split; [|split; [|split; [|split]]]].
  - intros Hle. apply leb_ltb_false in Hle.
    split; [now apply analyze_boundary_within, Hwo|].
    now apply scan_cons_within, Hwo.
  - intros Hle. apply leb_ltb_false in Hle.
    now apply analyze_boundary_within, Hwi.
  - intros Ho Hi. apply leb_ltb_false in Ho, Hi.
    rewrite (scan_cons_within _ _ _ _ (Hwo Ho)).
    now rewrite (scan_cons_within _ _ _ _ (Hwi Hi)).
  - intros Hgt. now apply scan_exceeds_located, Heo.
  - intros Ho Hgt. rewrite (scan_cons_within _ _ _ _ (Hwo Ho)).
    now apply scan_exceeds_located, Hei.
  - split.
    + intros (ty & p & Hd).
      destruct (scan_two_inv _ _ _ _ Hd)
        as [[(m & Hm & Hgt) _]|[(_ & (m & Hm & Hgt) & _)|(_ & _ & Hg)]].
      * left. change JUMP_THRESHOLD with 2.5%float in Hgt. congruence.
      * right. change JUMP_THRESHOLD with 2.5%float in Hgt. congruence.
      * symmetry in Hg. now apply good_not_defective in Hg.
    + intros Hgt. destruct (2.5 <? mo)%float eqn:Eo.
      * destruct (scan_exceeds_located center outer "Outer"
                    [(inner, "Inner"%string)] (Heo eq_refl)) as (ty & p & _ & H).
        eauto.
      * destruct Hgt as [Hgt|Hgt]; [discriminate|].
        rewrite (scan_cons_within _ _ _ _ (Hwo eq_refl)).
        destruct (scan_exceeds_located center inner "Inner" [] (Hei Hgt))
          as (ty & p & _ & H).
        eauto.
Qed.
End Threshold.

Section Order.
Import FloatOrder.
Variable cv2_contourArea : Contour -> float.
Local Abbreviation area := cv2_contourArea.

(** X7: when no two different contours tie in area (and the areas are
    numbers), the two selected boundaries do not depend on the order in which
    the tracer returned the contours. *)
Theorem selection_ignores_order_without_ties (contours1 contours2 : list Contour) :
  contours1 ≡ₚ contours2 ->
  Forall (fun c => is_nan (area c) = false) contours1 ->
  (forall c1 c2, c1 ∈ contours1 -> c2 ∈ contours1 ->
     (area c1 <=? area c2)%float = true -> (area c2 <=? area c1)%float = true ->
     c1 = c2) ->
  select area contours1 = select area contours2.
Proof.
  intros Hp Hnan Hinj. unfold select. f_equal.
  assert (Hnan2 : Forall (fun c => is_nan (area c) = false) contours2).
  { now rewrite <- Hp. }
  apply (StronglySorted_unique_strong
           (fun a b => (area b <=? area a)%float = true)).
  - intros x1 x2 H1 H2 Hle Hge.
    rewrite sorted_desc_perm in H1. rewrite sorted_desc_perm, <- Hp in H2.
    apply Hinj; assumption.
  - now apply sorted_desc_descending.
  - now apply sorted_desc_descending.
  - now rewrite !sorted_desc_perm.
Qed.
End Order.


(** ** The rendering and the batch *)
Section PipelineFacts.
Import FloatOrder NumpyFacts ScanFacts.
Context {Image : Type}.
Variable cv2_threshold : Image -> Image.
Variable cv2_findContours : Image -> list Contour.
Variable cv2_contourArea : Contour -> float.
Variable cv2_moments : Contour -> Moments.
Variable cv2_imread : string -> option Image.
Variable cv2_cvtColor : Image -> color_code -> Image.
Variable cv2_GaussianBlur : Image -> Z * Z -> Z -> Image.
Variable cv2_circle : Image -> Z * Z -> Z -> Z * Z * Z -> Z -> Image.
Variable cv2_line : Image -> Z * Z -> Z * Z -> Z * Z * Z -> Z -> Image.

Local Abbreviation run :=
  (find_and_analyze_ring cv2_threshold cv2_findContours cv2_contourArea cv2_moments).
Local Abbreviation render := (visualize_results cv2_cvtColor cv2_circle cv2_line).
Local Abbreviation batch :=
  (inspect_files cv2_threshold cv2_findContours cv2_contourArea cv2_moments
     cv2_imread cv2_cvtColor cv2_GaussianBlur cv2_circle cv2_line).
Local Abbreviation seen :=
  (inspected cv2_threshold cv2_findContours cv2_contourArea cv2_moments
     cv2_imread cv2_cvtColor cv2_GaussianBlur).
Local Abbreviation can_read := (readable cv2_imread).

Lemma render_error image msg name dir :
  render image (error_result msg) name dir = VRaise (KeyError "location").
Proof. reflexivity. Qed.

Lemma render_good image name dir :
  render image good_result name dir =
  VRet {| fig_image := cv2_cvtColor image COLOR_BGR2RGB;
          fig_title := "File: " +:+ name +:+ newline +:+ "Status: Good";
          fig_color := "green";
          fig_path := os_path_join dir ("result_" +:+ name) |}.
Proof. reflexivity. Qed.

Lemma render_defective image ty p c name dir :
  render image (defective_result ty p c) name dir =
  VRet {| fig_image :=
            cv2_cvtColor
              (cv2_line (cv2_circle image p 20 (0, 0, 255) 3) c p (255, 0, 0) 2)
              COLOR_BGR2RGB;
          fig_title := ("File: " +:+ name +:+ newline +:+ "Status: Defective")
                       +:+ " - Type: " +:+ ty;
          fig_color := "red";
          fig_path := os_path_join dir ("result_" +:+ name) |}.
Proof. reflexivity. Qed.

Lemma run_result_cases img d :
  run img = Ret d ->
  (exists msg, d = error_result msg) \/ d = good_result \/
  exists ty p c, d = defective_result ty p c.
Proof.
  intros H.
  destruct (run_inv _ _ _ _ img d H) as [[_ ->]|[[_ ->]|(o & i & c & _ & Hs)]]; eauto.
  destruct (scan_two_inv _ _ _ _ Hs) as [[Ho Ha]|[(_ & Ho & Ha)|(_ & _ & ->)]]; auto;
    destruct (analyze_boundary_shape _ _ _ _ Ha) as (ty & p & ->); eauto 10.
Qed.

Lemma render_after_run img d image name dir :
  run img = Ret d ->
  (d !! "status" = Some (VStr "Error") /\
   render image d name dir = VRaise (KeyError "location")) \/
  (d !! "status" <> Some (VStr "Error") /\
   exists fig, render image d name dir = VRet fig /\
               fig_path fig = os_path_join dir ("result_" +:+ name)).
Proof.
  intros H. destruct (run_result_cases img d H) as [[msg ->]|[->|(ty & p & c & ->)]].
  - left. split; [reflexivity|apply render_error].
  - right. split; [discriminate|]. rewrite render_good. eauto.
  - right. split; [discriminate|]. rewrite render_defective. eauto.
Qed.

(** X11: [visualize_results] raises KeyError on "location" for every Error
    result of [find_and_analyze_ring]: those results have no such key. *)
Theorem error_result_breaks_rendering img d image name dir :
  find_and_analyze_ring cv2_threshold cv2_findContours cv2_contourArea cv2_moments img
  = Ret d ->
  d !! "status" = Some (VStr "Error") ->
  visualize_results cv2_cvtColor cv2_circle cv2_line image d name dir
  = VRaise (KeyError "location").
Proof.
  intros H Hst. destruct (render_after_run img d image name dir H) as [[_ E]|[Hn _]];
    [exact E|contradiction].
Qed.

(** X12: on the other results of [find_and_analyze_ring] the rendering
    succeeds and writes to [output_dir]/result_[name].  For a Good result the
    image is shown unmarked under a green title; for a Defective result a
    circle of radius 20 is drawn at the location, then a line from the center
    to the location, and the red title ends with the defect type. *)
Theorem rendering_of_good_and_defective img d image name dir :
  run img = Ret d ->
  (d !! "status" = Some (VStr "Good") ->
   render image d name dir =
   VRet {| fig_image := cv2_cvtColor image COLOR_BGR2RGB;
           fig_title := "File: " +:+ name +:+ newline +:+ "Status: Good";
           fig_color := "green";
           fig_path := os_path_join dir ("result_" +:+ name) |}) /\
  (d !! "status" = Some (VStr "Defective") ->
   exists ty location center,
     d !! "defect_type" = Some (VStr ty) /\
     d !! "location" = Some (VTuple location) /\
     d !! "center" = Some (VTuple center) /\
     render image d name dir =
     VRet {| fig_image :=
               cv2_cvtColor
                 (cv2_line (cv2_circle image location 20 (0, 0, 255) 3)
                    center location (255, 0, 0) 2)
                 COLOR_BGR2RGB;
             fig_title := ("File: " +:+ name +:+ newline +:+ "Status: Defective")
                          +:+ " - Type: " +:+ ty;
             fig_color := "red";
             fig_path := os_path_join dir ("result_" +:+ name) |}).
Proof.
  intros H. destruct (run_result_cases img d H) as [[msg ->]|[->|(ty & p & c & ->)]].
  - split; discriminate.
  - split; [intros _; apply render_good|discriminate].
  - split; [discriminate|]. intros _. exists ty, p, c.
    repeat split; try reflexivity.
Qed.

Lemma batch_app pre rest :
  batch (pre ++ rest) =
  match batch pre with
  | (figs, None) => let '(figs', c) := batch rest in (figs ++ figs', c)
  | (figs, Some c) => (figs, Some c)
  end.
Proof.
  induction pre as [|f pre IH]; simpl.
  - now destruct (batch rest).
  - destruct (preprocess_image cv2_imread cv2_cvtColor cv2_GaussianBlur
                (os_path_join data_dir f)) as [[orig proc]|]; [|exact IH].
    destruct (run proc) as [d|e]; [|reflexivity].
    destruct (render orig d f output_dir) as [fig|e]; [|reflexivity].
    rewrite IH. destruct (batch pre) as [figs [c|]]; [reflexivity|].
    now destruct (batch rest).
Qed.

(** X13: the batch stops at the first file whose result is an Error result:
    the rendering raises KeyError on "location", the figures saved before stay
    and none of the files after it is processed. *)
Theorem batch_stops_at_error_result pre file_name rest figs d :
  batch pre = (figs, None) ->
  seen file_name d -> d !! "status" = Some (VStr "Error") ->
  batch (pre ++ file_name :: rest)
  = (figs, Some (VisualizerRaised (KeyError "location"))).
Proof.
  intros Hpre (orig & proc & Hp & Hr) Hst.
  rewrite batch_app, Hpre. simpl. rewrite Hp, Hr.
  destruct (render_after_run proc d orig file_name output_dir Hr) as [[_ E]|[Hn _]];
    [|contradiction].
  rewrite E. now rewrite app_nil_r.
Qed.

Lemma readable_spec f :
  can_read f = true <->
  is_Some (preprocess_image cv2_imread cv2_cvtColor cv2_GaussianBlur
             (os_path_join data_dir f)).
Proof.
  unfold readable, preprocess_image. rewrite bool_decide_eq_true.
  destruct (cv2_imread (os_path_join data_dir f)) as [o|];
    split; intros [x Hx]; try discriminate; eauto.
Qed.

(** X14: files that cannot be read are skipped: the batch gives the same
    figures and the same end as if they were not in the list. *)
Theorem unreadable_files_are_skipped files :
  batch files = batch (filter (fun f => can_read f = true) files).
Proof.
  induction files as [|f files IH]; [reflexivity|].
  rewrite filter_cons. destruct (decide (can_read f = true)) as [Hr|Hr].
  - simpl. rewrite IH. reflexivity.
  - simpl.
    destruct (preprocess_image cv2_imread cv2_cvtColor cv2_GaussianBlur
                (os_path_join data_dir f)) as [[orig proc]|] eqn:Hp; [|exact IH].
    exfalso. apply Hr. apply readable_spec. rewrite Hp. eauto.
Qed.

Lemma output_path f : os_path_join output_dir ("result_" +:+ f) = "output/result_" +:+ f.
Proof. reflexivity. Qed.

Lemma batch_paths files figs c :
  batch files = (figs, c) ->
  fig_path <$> figs =
    (fun f => "output/result_" +:+ f)
      <$> take (length figs) (filter (fun f => can_read f = true) files) /\
  (c = None -> length figs = length (filter (fun f => can_read f = true) files)).
Proof.
  revert figs c. induction files as [|f files IH]; intros figs c; simpl.
  - intros [= <- <-]. split; reflexivity.
  - rewrite filter_cons.
    destruct (preprocess_image cv2_imread cv2_cvtColor cv2_GaussianBlur
                (os_path_join data_dir f)) as [[orig proc]|] eqn:Hp.
    + assert (Hr : can_read f = true) by (apply readable_spec; rewrite Hp; eauto).
      destruct (decide (can_read f = true)) as [_|Hn]; [|contradiction].
      destruct (run proc) as [d|e] eqn:Hrun.
      * destruct (render_after_run proc d orig f output_dir Hrun)
          as [[_ E]|[_ (fig & E & Hpath)]]; rewrite E.
        -- intros [= <- <-]. split; [reflexivity|discriminate].
        -- destruct (batch files) as [figs' c'] eqn:Hb. intros [= <- <-].
           destruct (IH figs' c' eq_refl) as [IH1 IH2]. simpl. split.
           ++ rewrite Hpath, output_path. f_equal. exact IH1.
           ++ intros Hc. f_equal. now apply IH2.
      * intros [= <- <-]. split; [reflexivity|discriminate].
    + assert (Hr : can_read f <> true).
      { intros Hr. apply readable_spec in Hr as [x Hx]. congruence. }
      destruct (decide (can_read f = true)) as [Hy|_]; [contradiction|]. apply IH.
Qed.

(** X15: the figures are saved in the order of the readable files, one per
    file, at output/result_[file name]; when the batch ends without an
    exception there is one figure for every readable file. *)
Theorem batch_saves_in_order files :
  fig_path <$> (batch files).1 =
    (fun f => "output/result_" +:+ f)
      <$> take (length (batch files).1)
            (filter (fun f => can_read f = true) files) /\
  ((batch files).2 = None ->
   length (batch files).1 = length (filter (fun f => can_read f = true) files)).
Proof. apply batch_paths. apply surjective_pairing. Qed.

(** X16: the batch ends without an exception exactly when every readable
    file gets a result from the detector and none of these is an Error
    result. *)
Theorem batch_completes_iff files :
  (batch files).2 = None <->
  forall f, f ∈ files -> can_read f = true ->
    exists d, seen f d /\ d !! "status" <> Some (VStr "Error").
Proof.
  induction files as [|f files IH]; simpl.
  - split; [|reflexivity]. intros _ f Hf. now apply elem_of_nil in Hf.
  - destruct (preprocess_image cv2_imread cv2_cvtColor cv2_GaussianBlur
                (os_path_join data_dir f)) as [[orig proc]|] eqn:Hp.
    + destruct (run proc) as [d|e] eqn:Hrun.
      * destruct (render_after_run proc d orig f output_dir Hrun)
          as [[Hst E]|[Hst (fig & E & _)]]; rewrite E.
        -- split; [discriminate|]. intros H.
           destruct (H f) as (d' & (o' & p' & Hp' & Hr') & Hn); [left| |].
           { apply readable_spec. rewrite Hp. eauto. }
           rewrite Hp in Hp'. injection Hp' as <- <-. congruence.
        -- destruct (batch files) as [figs c] eqn:Hb. simpl in *. rewrite IH. split.
           ++ intros H g Hg Hr. apply elem_of_cons in Hg as [->|Hg]; [|now apply H].
              exists d. split; [exists orig, proc; auto|exact Hst].
           ++ intros H g Hg. apply H. now right.
      * split; [discriminate|]. intros H.
        destruct (H f) as (d' & (o' & p' & Hp' & Hr') & Hn); [left| |].
        { apply readable_spec. rewrite Hp. eauto. }
        rewrite Hp in Hp'. injection Hp' as <- <-. congruence.
    + rewrite IH. split.
      * intros H g Hg Hr. apply elem_of_cons in Hg as [->|Hg]; [|now apply H].
        apply readable_spec in Hr as [x Hx]. congruence.
      * intros H g Hg. apply H. now right.
Qed.
End PipelineFacts.


Section Translation.
Import ProfileFacts.

(** X17: the radial profile depends only on the positions relative to the
    center: moving the contour and the center by the same vector leaves the
    radii, their mean, the jumps, the deviations, the largest jump and
    [dev_radius] unchanged. *)
Theorem profile_is_translation_invariant (t : Z * Z) (contour : Contour) center :
  radii (map (shift t) contour) (shift t center) = radii contour center /\
  avg_radius (map (shift t) contour) (shift t center) = avg_radius contour center /\
  diffs (map (shift t) contour) (shift t center) = diffs contour center /\
  deviations (map (shift t) contour) (shift t center) = deviations contour center /\
  max_jump (map (shift t) contour) (shift t center) = max_jump contour center /\
  dev_radius (map (shift t) contour) (shift t center) = dev_radius contour center.
Proof.
  assert (Hr : radii (map (shift t) contour) (shift t center) = radii contour center).
  { unfold radii. rewrite map_map. apply map_ext. intros p. simpl.
    replace (p.1 + t.1 - (center.1 + t.1)) with (p.1 - center.1) by lia.
    replace (p.2 + t.2 - (center.2 + t.2)) with (p.2 - center.2) by lia.
    reflexivity. }
  assert (Ha : avg_radius (map (shift t) contour) (shift t center)
               = avg_radius contour center).
  { unfold avg_radius. now rewrite Hr. }
  assert (Hv : deviations (map (shift t) contour) (shift t center)
               = deviations contour center).
  { unfold deviations. now rewrite Hr, Ha. }
  unfold max_jump, dev_radius, diffs. rewrite Hr, Hv. auto 10.
Qed.
End Translation.

Lemma sq_registered :
  Polygon.reaches_scan [sq_inner; sq_outer] sq_outer sq_inner (10, 10).
Proof.
  split; [simpl; lia|]. split; [vm_compute; reflexivity|].
  exists (10, 10), (10, 10). repeat split; vm_compute; reflexivity.
Qed.

Lemma forall_eq_check (r : float) (a : list float) :
  forallb (fun x => PrimFloat.Leibniz.eqb x r) a = true -> Forall (fun x => x = r) a.
Proof.
  induction a as [|x a IH]; simpl; intros H; constructor.
  - apply andb_prop in H as [H _]. now apply FloatAxioms.Leibniz.eqb_spec.
  - apply IH. now apply andb_prop in H as [_ H].
Qed.

Lemma good_iff_no_jump_witness :
  Polygon.reaches_scan [sq_inner; sq_outer] sq_outer sq_inner (10, 10) /\
  (Polygon.inspect [sq_inner; sq_outer] = Ret good_result <->
   within sq_outer (10, 10) /\ within sq_inner (10, 10)).
Proof.
  split; [exact sq_registered|].
  exact (good_iff_no_jump (fun img => img) (fun img => img)
           Polygon.contourArea Polygon.moments [sq_inner; sq_outer]
           sq_outer sq_inner (10, 10) sq_registered).
Defined.

Lemma tri_well_formed c :
  c ∈ [tri_inner; tri_outer] ->
  c <> [] /\
  ((m00 (Polygon.moments c) =? 0)%float = true \/
   exists p, centroid Polygon.moments c = Ret p /\
             - 2 ^ 52 < p.1 < 2 ^ 52 /\ - 2 ^ 52 < p.2 < 2 ^ 52).
Proof.
  intros H. apply elem_of_cons in H as [->|H].
  - split; [discriminate|]. right. exists (6, 6).
    split; [vm_compute; reflexivity|simpl; lia].
  - apply elem_of_cons in H as [->|H]; [|now apply elem_of_nil in H].
    split; [discriminate|]. right. exists (6, 6).
    split; [vm_compute; reflexivity|simpl; lia].
Qed.

Lemma returns_on_well_formed_contours_witness :
  exists d, Polygon.inspect [tri_inner; tri_outer] = Ret d.
Proof.
  exact (returns_on_well_formed_contours (fun img => img) (fun img => img)
           Polygon.contourArea Polygon.moments [tri_inner; tri_outer]
           tri_well_formed).
Defined.

Lemma result_shapes_witness :
  Polygon.inspect [tri_inner; tri_outer] = Ret (defective_result "Cut" (0, 0) (6, 6)) /\
  (defective_result "Cut" (0, 0) (6, 6) = error_result "Segmentation Failed" \/
   defective_result "Cut" (0, 0) (6, 6) = error_result "Could not calculate moments" \/
   defective_result "Cut" (0, 0) (6, 6) = good_result \/
   exists ty location center contour,
     defective_result "Cut" (0, 0) (6, 6) = defective_result ty location center /\
     (ty = "Cut"%string \/ ty = "Flash"%string) /\
     location ∈ contour /\ contour ∈ [tri_inner; tri_outer]).
Proof.
  split; [exact tri_run|].
  exact (result_shapes (fun img => img) (fun img => img)
           Polygon.contourArea Polygon.moments [tri_inner; tri_outer]
           (defective_result "Cut" (0, 0) (6, 6)) tri_run).
Defined.

Lemma constant_profiles_are_good_witness :
  Polygon.reaches_scan [sq_inner; sq_outer] sq_outer sq_inner (10, 10) /\
  Forall (fun x => x = PrimFloat.sqrt 200) (radii sq_outer (10, 10)) /\
  Forall (fun x => x = PrimFloat.sqrt 50) (radii sq_inner (10, 10)) /\
  max_jump sq_outer (10, 10) = Ret 0%float /\
  max_jump sq_inner (10, 10) = Ret 0%float /\
  Polygon.inspect [sq_inner; sq_outer] = Ret good_result.
Proof.
  assert (Ho : Forall (fun x => x = PrimFloat.sqrt 200) (radii sq_outer (10, 10))).
  { apply forall_eq_check. vm_compute. reflexivity. }
  assert (Hi : Forall (fun x => x = PrimFloat.sqrt 50) (radii sq_inner (10, 10))).
  { apply forall_eq_check. vm_compute. reflexivity. }
  split; [exact sq_registered|]. split; [exact Ho|]. split; [exact Hi|].
  apply (constant_profiles_are_good (fun img => img) (fun img => img)
           Polygon.contourArea Polygon.moments [sq_inner; sq_outer]
           sq_outer sq_inner (10, 10) (PrimFloat.sqrt 200) (PrimFloat.sqrt 50)
           sq_registered); try discriminate; try exact Ho; try exact Hi;
    vm_compute; reflexivity.
Defined.

Lemma squares_no_tie c1 c2 :
  c1 ∈ [sq_inner; sq_outer] -> c2 ∈ [sq_inner; sq_outer] ->
  (Polygon.contourArea c1 <=? Polygon.contourArea c2)%float = true ->
  (Polygon.contourArea c2 <=? Polygon.contourArea c1)%float = true ->
  c1 = c2.
Proof.
  intros H1 H2.
  apply elem_of_cons in H1 as [->|H1]; [|apply elem_of_cons in H1 as [->|H1]];
    try (now apply elem_of_nil in H1);
    (apply elem_of_cons in H2 as [->|H2]; [|apply elem_of_cons in H2 as [->|H2]]);
    try (now apply elem_of_nil in H2);
    try reflexivity; vm_compute; intros; discriminate.
Qed.

Lemma selection_ignores_order_without_ties_witness :
  [sq_inner; sq_outer] ≡ₚ [sq_outer; sq_inner] /\
  select Polygon.contourArea [sq_inner; sq_outer]
  = select Polygon.contourArea [sq_outer; sq_inner].
Proof.
  split; [apply Permutation_swap|].
  apply (selection_ignores_order_without_ties Polygon.contourArea
           [sq_inner; sq_outer] [sq_outer; sq_inner]).
  - apply Permutation_swap.
  - repeat constructor; vm_compute; reflexivity.
  - exact squares_no_tie.
Defined.

Lemma center_between_centroids_witness :
  exists center,
    center_of (3, 8) (6, 5) = Ret center /\
    Z.min 3 6 <= center.1 <= Z.max 3 6 /\
    Z.min 8 5 <= center.2 <= Z.max 8 5 /\
    ((3, 8) = (6, 5) -> center = (3, 8)).
Proof.
  apply (center_between_centroids (3, 8) (6, 5)); simpl; lia.
Defined.

Lemma reported_jump_exceeds_threshold_witness :
  Polygon.reaches_scan [tri_inner; tri_outer] tri_outer tri_inner (6, 6) /\
  exists contour i location jump,
    (contour = tri_outer \/ contour = tri_inner) /\
    contour !! i = Some location /\
    defective_result "Cut" (0, 0) (6, 6) !! "location" = Some (VTuple location) /\
    diffs contour (6, 6) !! i = Some jump /\
    (2.5 <? jump)%float = true.
Proof.
  split; [exact tri_registered|].
  apply (reported_jump_exceeds_threshold (fun img => img) (fun img => img)
           Polygon.contourArea Polygon.moments [tri_inner; tri_outer]
           tri_outer tri_inner (6, 6) (defective_result "Cut" (0, 0) (6, 6))
           tri_registered tri_run eq_refl);
    apply no_nan_forallb; vm_compute; reflexivity.
Defined.

Lemma radius_without_wraparound_witness :
  tri_outer !! 1%nat = Some (20, 0) /\
  radii tri_outer (6, 6) !! 1%nat =
    Some (PrimFloat.sqrt (float_of_int ((20 - 6) ^ 2 + (0 - 6) ^ 2))).
Proof.
  split; [reflexivity|].
  apply (radius_without_wraparound tri_outer (6, 6) 1%nat (20, 0));
    [reflexivity|simpl; lia|simpl; lia].
Defined.

Lemma error_result_breaks_rendering_witness :
  Polygon.inspect [sq_inner] = Ret (error_result "Segmentation Failed") /\
  Disk.visualize [sq_inner] (error_result "Segmentation Failed") "defect2.png" "output"
  = VRaise (KeyError "location").
Proof.
  assert (H : Polygon.inspect [sq_inner] = Ret (error_result "Segmentation Failed")).
  { vm_compute. reflexivity. }
  split; [exact H|].
  exact (error_result_breaks_rendering (fun img => img) (fun img => img)
           Polygon.contourArea Polygon.moments Disk.cvtColor Disk.circle Disk.line
           [sq_inner] (error_result "Segmentation Failed") [sq_inner]
           "defect2.png" "output" H eq_refl).
Defined.

Lemma rendering_of_good_and_defective_witness :
  Polygon.inspect [tri_inner; tri_outer] = Ret (defective_result "Cut" (0, 0) (6, 6)) /\
  exists ty location center,
    defective_result "Cut" (0, 0) (6, 6) !! "defect_type" = Some (VStr ty) /\
    defective_result "Cut" (0, 0) (6, 6) !! "location" = Some (VTuple location) /\
    defective_result "Cut" (0, 0) (6, 6) !! "center" = Some (VTuple center) /\
    Disk.visualize [tri_inner; tri_outer] (defective_result "Cut" (0, 0) (6, 6))
      "defect1.png" "output" =
    VRet {| fig_image :=
              Disk.cvtColor
                (Disk.line (Disk.circle [tri_inner; tri_outer] location 20 (0, 0, 255) 3)
                   center location (255, 0, 0) 2)
                COLOR_BGR2RGB;
            fig_title := ("File: " +:+ "defect1.png" +:+ newline +:+ "Status: Defective")
                         +:+ " - Type: " +:+ ty;
            fig_color := "red";
            fig_path := os_path_join "output" ("result_" +:+ "defect1.png") |}.
Proof.
  split; [exact tri_run|].
  exact (proj2 (rendering_of_good_and_defective (fun img => img) (fun img => img)
                  Polygon.contourArea Polygon.moments Disk.cvtColor Disk.circle Disk.line
                  [tri_inner; tri_outer] (defective_result "Cut" (0, 0) (6, 6))
                  [tri_inner; tri_outer] "defect1.png" "output" tri_run) eq_refl).
Defined.

Lemma defect1_batch :
  Disk.batch ["defect1.png"] =
  ([{| fig_image := [tri_inner; tri_outer; [(0, 0)]; [(6, 6); (0, 0)]];
       fig_title := "File: defect1.png" +:+ newline +:+ "Status: Defective - Type: Cut";
       fig_color := "red";
       fig_path := "output/result_defect1.png" |}], None).
Proof. vm_compute. reflexivity. Qed.

Lemma defect2_inspected :
  inspected (fun img => img) (fun img => img) Polygon.contourArea Polygon.moments
    Disk.imread Disk.cvtColor Disk.GaussianBlur
    "defect2.png" (error_result "Segmentation Failed").
Proof. exists [sq_inner], [sq_inner]. split; vm_compute; reflexivity. Qed.

Lemma batch_stops_at_error_result_witness :
  Disk.batch image_files =
  ([{| fig_image := [tri_inner; tri_outer; [(0, 0)]; [(6, 6); (0, 0)]];
       fig_title := "File: defect1.png" +:+ newline +:+ "Status: Defective - Type: Cut";
       fig_color := "red";
       fig_path := "output/result_defect1.png" |}],
   Some (VisualizerRaised (KeyError "location"))).
Proof.
  exact (batch_stops_at_error_result (fun img => img) (fun img => img)
           Polygon.contourArea Polygon.moments
           Disk.imread Disk.cvtColor Disk.GaussianBlur Disk.circle Disk.line
           ["defect1.png"] "defect2.png" ["defect3.png"; "defect4.png"; "good.png"]
           _ (error_result "Segmentation Failed")
           defect1_batch defect2_inspected eq_refl).
Defined.

(** ** Sample runs for the threshold and the classification *)

Lemma kite_registered :
  Polygon.reaches_scan [sq_small; kite] kite sq_small (19, 20).
Proof.
  split; [simpl; lia|]. split; [vm_compute; reflexivity|].
  exists (18, 20), (20, 20). repeat split; vm_compute; reflexivity.
Qed.

Lemma sq_tri_registered :
  Polygon.reaches_scan [sq_outer; tri_mid] sq_outer tri_mid (10, 10).
Proof.
  split; [simpl; lia|]. split; [vm_compute; reflexivity|].
  exists (10, 10), (10, 10). repeat split; vm_compute; reflexivity.
Qed.

Lemma around_kite_registered :
  Polygon.reaches_scan [kite; sq_around] sq_around kite (19, 20).
Proof.
  split; [simpl; lia|]. split; [vm_compute; reflexivity|].
  exists (20, 20), (18, 20). repeat split; vm_compute; reflexivity.
Qed.

Lemma kite_exceeds : exceeds kite (19, 20).
Proof. eexists. split; vm_compute; reflexivity. Qed.

Lemma tri_mid_exceeds : exceeds tri_mid (10, 10).
Proof. eexists. split; vm_compute; reflexivity. Qed.

Lemma sq_outer_within : within sq_outer (10, 10).
Proof. eexists. split; vm_compute; reflexivity. Qed.

Lemma sq_around_within : within sq_around (19, 20).
Proof. eexists. split; vm_compute; reflexivity. Qed.

(** The four cases of the classification: the outer triangle (the radius that
    deviates most, that of (0, 0), is below the mean: Cut), the kite as outer
    boundary (the radius 8 of (11, 20), at position 2, is above the mean:
    Flash, located at position 3), the triangle inside a square (Flash) and
    the kite inside a square (Cut). *)
Lemma classification_by_dev_radius_witness :
  (Polygon.reaches_scan [tri_inner; tri_outer] tri_outer tri_inner (6, 6) /\
   exceeds tri_outer (6, 6) /\
   radii tri_outer (6, 6) = [sqrt 72; sqrt 232; sqrt 232]%float /\
   avg_radius tri_outer (6, 6) = ((0 + sqrt 72 + sqrt 232 + sqrt 232) / 3)%float /\
   np_argmax (map (fun x => abs (x - avg_radius tri_outer (6, 6)%Z)%float)
                  (radii tri_outer (6, 6))) = Ret 0%nat /\
   np_argmax (diffs tri_outer (6, 6)) = Ret 0%nat /\
   (sqrt 72 <? avg_radius tri_outer (6, 6)%Z)%float = true /\
   Polygon.inspect [tri_inner; tri_outer]
   = Ret (defective_result "Cut" (0, 0) (6, 6))) /\
  (Polygon.reaches_scan [sq_small; kite] kite sq_small (19, 20) /\
   exceeds kite (19, 20) /\
   radii kite (19, 20) = [sqrt 36; sqrt 50; sqrt 64; sqrt 26]%float /\
   avg_radius kite (19, 20)
   = ((0 + sqrt 36 + sqrt 50 + sqrt 64 + sqrt 26) / 4)%float /\
   np_argmax (map (fun x => abs (x - avg_radius kite (19, 20)%Z)%float)
                  (radii kite (19, 20))) = Ret 2%nat /\
   np_argmax (diffs kite (19, 20)) = Ret 3%nat /\
   (sqrt 64 <? avg_radius kite (19, 20)%Z)%float = false /\
   Polygon.inspect [sq_small; kite]
   = Ret (defective_result "Flash" (20, 15) (19, 20))) /\
  (Polygon.reaches_scan [sq_outer; tri_mid] sq_outer tri_mid (10, 10) /\
   within sq_outer (10, 10) /\ exceeds tri_mid (10, 10) /\
   radii tri_mid (10, 10) = [sqrt 32; sqrt 80; sqrt 80]%float /\
   avg_radius tri_mid (10, 10) = ((0 + sqrt 32 + sqrt 80 + sqrt 80) / 3)%float /\
   np_argmax (map (fun x => abs (x - avg_radius tri_mid (10, 10)%Z)%float)
                  (radii tri_mid (10, 10))) = Ret 0%nat /\
   np_argmax (diffs tri_mid (10, 10)) = Ret 0%nat /\
   (sqrt 32 <? avg_radius tri_mid (10, 10)%Z)%float = true /\
   Polygon.inspect [sq_outer; tri_mid]
   = Ret (defective_result "Flash" (6, 6) (10, 10))) /\
  (Polygon.reaches_scan [kite; sq_around] sq_around kite (19, 20) /\
   within sq_around (19, 20) /\ exceeds kite (19, 20) /\
   Polygon.inspect [kite; sq_around]
   = Ret (defective_result "Cut" (20, 15) (19, 20))).
Proof.
  split; [|split; [|split]].
  - split; [exact tri_registered|]. split; [exact tri_outer_exceeds|].
    do 5 (split; [vm_compute; reflexivity|]).
    destruct (classification_by_dev_radius (fun img => img) (fun img => img)
                Polygon.contourArea Polygon.moments [tri_inner; tri_outer]
                tri_outer tri_inner (6, 6) tri_outer "Outer"
                tri_registered (or_introl (conj eq_refl eq_refl)) tri_outer_exceeds)
      as (_ & _ & _ & H).
    destruct (H 0%nat (sqrt 72)%float 0%nat (0, 0)) as (_ & _ & Hrun);
      [vm_compute; reflexivity ..|exact Hrun].
  - split; [exact kite_registered|]. split; [exact kite_exceeds|].
    do 5 (split; [vm_compute; reflexivity|]).
    destruct (classification_by_dev_radius (fun img => img) (fun img => img)
                Polygon.contourArea Polygon.moments [sq_small; kite]
                kite sq_small (19, 20) kite "Outer"
                kite_registered (or_introl (conj eq_refl eq_refl)) kite_exceeds)
      as (_ & _ & _ & H).
    destruct (H 2%nat (sqrt 64)%float 3%nat (20, 15)) as (_ & _ & Hrun);
      [vm_compute; reflexivity ..|exact Hrun].
  - split; [exact sq_tri_registered|]. split; [exact sq_outer_within|].
    split; [exact tri_mid_exceeds|].
    do 5 (split; [vm_compute; reflexivity|]).
    destruct (classification_by_dev_radius (fun img => img) (fun img => img)
                Polygon.contourArea Polygon.moments [sq_outer; tri_mid]
                sq_outer tri_mid (10, 10) tri_mid "Inner"
                sq_tri_registered
                (or_intror (conj eq_refl (conj eq_refl sq_outer_within)))
                tri_mid_exceeds)
      as (_ & _ & _ & H).
    destruct (H 0%nat (sqrt 32)%float 0%nat (6, 6)) as (_ & _ & Hrun);
      [vm_compute; reflexivity ..|exact Hrun].
  - split; [exact around_kite_registered|]. split; [exact sq_around_within|].
    split; [exact kite_exceeds|].
    destruct (classification_by_dev_radius (fun img => img) (fun img => img)
                Polygon.contourArea Polygon.moments [kite; sq_around]
                sq_around kite (19, 20) kite "Inner"
                around_kite_registered
                (or_intror (conj eq_refl (conj eq_refl sq_around_within)))
                kite_exceeds)
      as (_ & _ & _ & H).
    destruct (H 2%nat (sqrt 64)%float 3%nat (20, 15)) as (_ & _ & Hrun);
      [vm_compute; reflexivity ..|exact Hrun].
Defined.

(** The three outcomes of the threshold: a jump of 6.75 on the outer triangle
    (Defective, on the outer boundary), no jump on the outer square and a jump
    of 3.29 on the triangle inside it (Defective, on the inner boundary), and
    no jump on two concentric squares (Good). *)
Lemma threshold_decides_result_witness :
  (Polygon.reaches_scan [tri_inner; tri_outer] tri_outer tri_inner (6, 6) /\
   max_jump tri_outer (6, 6) = Ret (abs (sqrt 72 - sqrt 232))%float /\
   max_jump tri_inner (6, 6) = Ret (abs (sqrt 8 - sqrt 40))%float /\
   (2.5 <? abs (sqrt 72 - sqrt 232))%float = true /\
   largest_circular_jump (radii tri_outer (6, 6)) (abs (sqrt 72 - sqrt 232))%float /\
   (exists ty location,
      location ∈ tri_outer /\
      Polygon.inspect [tri_inner; tri_outer]
      = Ret (defective_result ty location (6, 6)))) /\
  (Polygon.reaches_scan [sq_outer; tri_mid] sq_outer tri_mid (10, 10) /\
   max_jump sq_outer (10, 10) = Ret 0%float /\
   max_jump tri_mid (10, 10) = Ret (abs (sqrt 32 - sqrt 80))%float /\
   (2.5 <? 0)%float = false /\
   (2.5 <? abs (sqrt 32 - sqrt 80))%float = true /\
   (exists ty location,
      location ∈ tri_mid /\
      Polygon.inspect [sq_outer; tri_mid]
      = Ret (defective_result ty location (10, 10)))) /\
  (Polygon.reaches_scan [sq_inner; sq_outer] sq_outer sq_inner (10, 10) /\
   max_jump sq_outer (10, 10) = Ret 0%float /\
   max_jump sq_inner (10, 10) = Ret 0%float /\
   (0 <=? 2.5)%float = true /\
   Polygon.inspect [sq_inner; sq_outer] = Ret good_result).
Proof.
  split; [|split].
  - split; [exact tri_registered|]. do 3 (split; [vm_compute; reflexivity|]).
    destruct (threshold_decides_result (fun img => img) (fun img => img)
                Polygon.contourArea Polygon.moments [tri_inner; tri_outer]
                tri_outer tri_inner (6, 6)
                (abs (sqrt 72 - sqrt 232))%float (abs (sqrt 8 - sqrt 40))%float
                tri_registered)
      as (_ & Hmax & _ & _ & _ & _ & Hout & _); [vm_compute; reflexivity ..|].
    split; [exact Hmax|]. apply Hout. vm_compute. reflexivity.
  - split; [exact sq_tri_registered|]. do 4 (split; [vm_compute; reflexivity|]).
    destruct (threshold_decides_result (fun img => img) (fun img => img)
                Polygon.contourArea Polygon.moments [sq_outer; tri_mid]
                sq_outer tri_mid (10, 10) 0%float (abs (sqrt 32 - sqrt 80))%float
                sq_tri_registered)
      as (_ & _ & _ & _ & _ & _ & _ & Hin & _); [vm_compute; reflexivity ..|].
    apply Hin; vm_compute; reflexivity.
  - split; [exact sq_registered|]. do 3 (split; [vm_compute; reflexivity|]).
    destruct (threshold_decides_result (fun img => img) (fun img => img)
                Polygon.contourArea Polygon.moments [sq_inner; sq_outer]
                sq_outer sq_inner (10, 10) 0%float 0%float sq_registered)
      as (_ & _ & _ & _ & _ & Hgood & _); [vm_compute; reflexivity ..|].
    apply Hgood; vm_compute; reflexivity.
Defined.
